(** * executor/oci/spec_linux.go: the OCI runtime-spec generators of the
    Linux executor, as a shallow embedding.

    Go values are modelled as follows.
    - A slice is a [list]; the nil slice and the empty slice are both [[]].
    - A pointer that the code dereferences ([s.Process], [s.Linux]) is an
      [option]; dereferencing [None] is a panic, made explicit in [Res].
    - An [error] return value is an [option error] ([None] is Go's nil).
    - An [oci.SpecOpts] closure is a constructor of [SpecOpts] carrying the
      variables the closure captures, and [runSpecOpts] is its body.
    - What the code reads from the host (SELinux, seccomp and AppArmor
      support, the file system, the CDI registry) is passed explicitly. *)

From Stdlib Require Import ZArith List String Ascii Bool Lia DecimalString.
Import ListNotations.
Open Scope string_scope.

(** ** errors (github.com/pkg/errors) *)

Inductive error : Type :=
| errors_New (msg : string)
| errors_WithStack (e : error)
| errors_Wrapf (e : error) (msg : string)
| ext_error (msg : string).   (* an error value built by a collaborator *)

(** [err.Error()]: [Wrapf] prefixes its message, [WithStack] adds none. *)
Fixpoint Error (e : error) : string :=
  match e with
  | errors_New msg => msg
  | errors_WithStack e' => Error e'
  | errors_Wrapf e' msg => msg ++ ": " ++ Error e'
  | ext_error msg => msg
  end.

(** [fmt.Sprintf(format, arg)] for a format whose only verb is one [%s]. *)
Fixpoint Sprintf (format arg : string) : string :=
  match format with
  | String "%" (String "s" rest) => arg ++ rest
  | String c rest => String c (Sprintf rest arg)
  | EmptyString => EmptyString
  end.

Definition errors_Errorf (format arg : string) : error :=
  errors_New (Sprintf format arg).

(** [strings.Contains], used to read error messages. *)
Fixpoint Contains (s substr : string) : bool :=
  if prefix substr s then true
  else match s with
       | EmptyString => false
       | String _ rest => Contains rest substr
       end.

(** ** runtime-spec (specs-go) and the request types of solver/pb *)

Record Mount : Type := {
  Mount_Destination : string;
  Mount_Type : string;
  Mount_Source : string;
  Mount_Options : list string
}.

Record POSIXRlimit : Type := {
  POSIXRlimit_Type : string;
  POSIXRlimit_Hard : Z;      (* uint64 *)
  POSIXRlimit_Soft : Z       (* uint64 *)
}.

Inductive LinuxNamespaceType : Type :=
| PIDNamespace | NetworkNamespace | MountNamespace | IPCNamespace
| UTSNamespace | UserNamespace | CgroupNamespace.

Record LinuxNamespace : Type := {
  LinuxNamespace_Type : LinuxNamespaceType;
  LinuxNamespace_Path : string
}.

(** The seccomp profile is produced and consumed by collaborators only. *)
Record LinuxSeccomp : Type := { LinuxSeccomp_DefaultAction : string }.

Record Process : Type := {
  Process_Args : list string;
  Process_Env : list string;
  Process_Cwd : string;
  Process_Rlimits : list POSIXRlimit;
  Process_ApparmorProfile : string;
  Process_SelinuxLabel : string
}.

Record Linux : Type := {
  Linux_Namespaces : list LinuxNamespace;
  Linux_MaskedPaths : list string;
  Linux_ReadonlyPaths : list string;
  Linux_Seccomp : option LinuxSeccomp;
  Linux_MountLabel : string
}.

Record Spec : Type := {
  Spec_Version : string;
  Spec_Process : option Process;     (* *specs.Process *)
  Spec_Hostname : string;
  Spec_Mounts : list Mount;
  Spec_Hooks : list string;
  Spec_Linux : option Linux          (* *specs.Linux *)
}.

(** Modelled from the spec: the declaration of [pb.SecurityMode] is not among
    the sources; section 3 gives the enumerated variant
    {Insecure, Sandboxed, Unspecified}. *)
Inductive SecurityMode : Type :=
| SecurityMode_SANDBOX
| SecurityMode_INSECURE
| SecurityMode_UNSPECIFIED.

(** Modelled from the spec: [ProcessMode] is declared outside the sources;
    section 3 gives {HostProcessNamespace, SandboxedProcessNamespace(default)},
    which the code names [NoProcessSandbox] and [ProcessSandbox]. *)
Inductive ProcessMode : Type :=
| ProcessSandbox
| NoProcessSandbox.

(** Modelled from the spec: [pb.Ulimit] is declared outside the sources;
    section 3 gives the triple {name, soft, hard}. The code converts [Soft]
    and [Hard] with [uint64(...)], so they are kept as integers here. *)
Record Ulimit : Type := {
  Ulimit_Name : string;
  Ulimit_Soft : Z;
  Ulimit_Hard : Z
}.

(** Modelled from the spec: a [pb.CDIDevice] is an opaque device identifier
    handed to the device manager. *)
Record CDIDevice : Type := { CDIDevice_Name : string }.

(** ** What the generators read from the host *)

Record Host : Type := {
  selinux_GetEnabled : bool;
  cdseccomp_IsEnabled : bool;
  apparmor_HostSupports : bool
}.

(** ** oci.SpecOpts *)

(** Mutators implemented by collaborators (containerd, util/entitlements). *)
Inductive ExternalOpts : Type :=
| security_WithInsecureSpec
| oci_WithWriteableCgroupfs
| oci_WithWriteableSysfs
| oci_WithApparmorProfile (profile : string)
| oci_WithHostNamespace (ns : LinuxNamespaceType).

(** Mutators of this file. [withSelinuxLabels] is the anonymous closure both
    arms of [generateSecurityOpts] end with: it captures [selinuxB] and the
    argument given to [label.InitLabels]. [withRlimits] is the closure
    returned by [generateRlimitOpts], capturing [rlimits]. *)
Inductive SpecOpts : Type :=
| External (o : ExternalOpts)
| withSelinuxLabels (selinuxB : bool) (options : list string)
| withDefaultProfile
| withBoundProc
| withRlimits (rlimits : list POSIXRlimit)
| withCDIDevices (devs : list (option CDIDevice)).

(** ** generateSecurityOpts *)

Definition generateSecurityOpts (h : Host) (mode : SecurityMode)
    (apparmorProfile : string) (selinuxB : bool)
  : list SpecOpts * option error :=
  if selinuxB && negb (selinux_GetEnabled h) then
    ([], Some (errors_New "selinux is not available"))
  else
    match mode with
    | SecurityMode_INSECURE =>
        ([ External security_WithInsecureSpec;
           External oci_WithWriteableCgroupfs;
           External oci_WithWriteableSysfs;
           withSelinuxLabels selinuxB ["disable"] ], None)
    | SecurityMode_SANDBOX =>
        let opts : list SpecOpts := [] in
        let opts := if cdseccomp_IsEnabled h
                    then (opts ++ [withDefaultProfile])%list else opts in
        let checked : list SpecOpts + error :=
          if negb (apparmorProfile =? "") then
            if negb (apparmor_HostSupports h) then
              inr (errors_New
                     ("AppArmor is not supported on this host, but the profile '"
                      ++ apparmorProfile ++ "' was specified"))
            else
              inl (opts ++ [External (oci_WithApparmorProfile apparmorProfile)])%list
          else inl opts in
        match checked with
        | inr err => ([], Some err)
        | inl opts => ((opts ++ [withSelinuxLabels selinuxB []])%list, None)
        end
    | SecurityMode_UNSPECIFIED => ([], None)
    end.

(** ** generateProcessModeOpts *)

Definition generateProcessModeOpts (mode : ProcessMode)
  : list SpecOpts * option error :=
  match mode with
  | NoProcessSandbox =>
      ([ External (oci_WithHostNamespace PIDNamespace); withBoundProc ], None)
  | _ => ([], None)
  end.

(** ** generateCDIOpts

    The [manager] pointer the closure captures designates the registry kept
    in the [World] the mutation runs in. *)

Definition generateCDIOpts (devs : list (option CDIDevice))
  : list SpecOpts * option error :=
  if (List.length devs =? 0)%nat then ([], None)
  else ([withCDIDevices devs], None).

(** ** generateRlimitOpts *)

(** Go's conversion [uint64(x)] of an integer: the value modulo 2^64. *)
Definition uint64 (x : Z) : Z := x mod 2 ^ 64.

Section Rlimits.

(** [strings.ToUpper] of the Go standard library. *)
Variable strings_ToUpper : string -> string.

Definition rlimitOf (u : Ulimit) : POSIXRlimit :=
  {| POSIXRlimit_Type := Sprintf "RLIMIT_%s" (strings_ToUpper (Ulimit_Name u));
     POSIXRlimit_Hard := uint64 (Ulimit_Hard u);
     POSIXRlimit_Soft := uint64 (Ulimit_Soft u) |}.

(** The [for _, u := range ulimits] loop, [rlimits] being its accumulator. *)
Fixpoint appendRlimits (ulimits : list (option Ulimit))
    (rlimits : list POSIXRlimit) : list POSIXRlimit :=
  match ulimits with
  | [] => rlimits
  | None :: rest => appendRlimits rest rlimits
  | Some u :: rest => appendRlimits rest (rlimits ++ [rlimitOf u])%list
  end.

Definition generateRlimitOpts (ulimits : list (option Ulimit))
  : list SpecOpts * option error :=
  if (List.length ulimits =? 0)%nat then ([], None)
  else
    let rlimits := appendRlimits ulimits [] in
    ([withRlimits rlimits], None).

End Rlimits.

(** ** Running the mutators *)

(** Calls the mutators make on collaborators, in the order they are made. *)
Inductive Event : Type :=
| Ev_Refresh
| Ev_Warnf (format : string) (err : error)
| Ev_InjectDevices (devs : list (option CDIDevice)).

Section Mutators.

(** [hasPrefix] is declared in spec.go, outside the sources at hand. *)
Variable hasPrefix : string -> string -> bool.

(** Collaborators: the mutators of containerd and of util/entitlements,
    moby's default seccomp profile, go-selinux's label initialisation. *)
Variable runExternal : ExternalOpts -> Spec -> Spec * option error.
Variable seccomp_GetDefaultProfile : Spec -> option LinuxSeccomp * option error.
Variable label_InitLabels : list string -> string * string * option error.

(** The CDI device manager: its registry is a state of type [Manager]. *)
Variable Manager : Type.
Variable manager_Refresh : Manager -> Manager * option error.
Variable manager_InjectDevices :
  Manager -> Spec -> list (option CDIDevice) -> Manager * Spec * option error.

Record World : Type := {
  World_manager : Manager;
  World_events : list Event
}.

(** A mutator returns its error with the spec as it left it (the spec is
    mutated in place), or panics on a nil pointer. *)
Inductive Res : Type :=
| Returned (err : option error) (s : Spec) (w : World)
| Panicked (why : string).

Definition with_Mounts (s : Spec) (mounts : list Mount) : Spec :=
  {| Spec_Version := Spec_Version s; Spec_Process := Spec_Process s;
     Spec_Hostname := Spec_Hostname s; Spec_Mounts := mounts;
     Spec_Hooks := Spec_Hooks s; Spec_Linux := Spec_Linux s |}.

Definition with_Process (s : Spec) (p : Process) : Spec :=
  {| Spec_Version := Spec_Version s; Spec_Process := Some p;
     Spec_Hostname := Spec_Hostname s; Spec_Mounts := Spec_Mounts s;
     Spec_Hooks := Spec_Hooks s; Spec_Linux := Spec_Linux s |}.

Definition with_Linux (s : Spec) (l : Linux) : Spec :=
  {| Spec_Version := Spec_Version s; Spec_Process := Spec_Process s;
     Spec_Hostname := Spec_Hostname s; Spec_Mounts := Spec_Mounts s;
     Spec_Hooks := Spec_Hooks s; Spec_Linux := Some l |}.

Definition with_Rlimits (p : Process) (rlimits : list POSIXRlimit) : Process :=
  {| Process_Args := Process_Args p; Process_Env := Process_Env p;
     Process_Cwd := Process_Cwd p; Process_Rlimits := rlimits;
     Process_ApparmorProfile := Process_ApparmorProfile p;
     Process_SelinuxLabel := Process_SelinuxLabel p |}.

Definition with_SelinuxLabel (p : Process) (lbl : string) : Process :=
  {| Process_Args := Process_Args p; Process_Env := Process_Env p;
     Process_Cwd := Process_Cwd p; Process_Rlimits := Process_Rlimits p;
     Process_ApparmorProfile := Process_ApparmorProfile p;
     Process_SelinuxLabel := lbl |}.

Definition with_Seccomp (l : Linux) (sc : option LinuxSeccomp) : Linux :=
  {| Linux_Namespaces := Linux_Namespaces l;
     Linux_MaskedPaths := Linux_MaskedPaths l;
     Linux_ReadonlyPaths := Linux_ReadonlyPaths l;
     Linux_Seccomp := sc; Linux_MountLabel := Linux_MountLabel l |}.

Definition with_MountLabel (l : Linux) (lbl : string) : Linux :=
  {| Linux_Namespaces := Linux_Namespaces l;
     Linux_MaskedPaths := Linux_MaskedPaths l;
     Linux_ReadonlyPaths := Linux_ReadonlyPaths l;
     Linux_Seccomp := Linux_Seccomp l; Linux_MountLabel := lbl |}.

Definition with_Paths (l : Linux) (masked readonly : list string) : Linux :=
  {| Linux_Namespaces := Linux_Namespaces l;
     Linux_MaskedPaths := masked;
     Linux_ReadonlyPaths := readonly;
     Linux_Seccomp := Linux_Seccomp l; Linux_MountLabel := Linux_MountLabel l |}.

Definition logged (w : World) (ev : Event) : World :=
  {| World_manager := World_manager w;
     World_events := (World_events w ++ [ev])%list |}.

Definition with_manager (w : World) (m : Manager) : World :=
  {| World_manager := m; World_events := World_events w |}.

(** [removeMountsWithPrefix]: the loop appends to [ret] the mounts whose
    destination does not have the prefix. *)
Fixpoint removeMountsWithPrefix (mounts : list Mount) (prefixDir : string)
  : list Mount :=
  match mounts with
  | [] => []
  | m :: rest =>
      if negb (hasPrefix (Mount_Destination m) prefixDir)
      then m :: removeMountsWithPrefix rest prefixDir
      else removeMountsWithPrefix rest prefixDir
  end.

(** The two path loops of [withBoundProc]. *)
Fixpoint pathsWithoutPrefix (paths : list string) (prefixDir : string)
  : list string :=
  match paths with
  | [] => []
  | p :: rest =>
      if negb (hasPrefix p prefixDir)
      then p :: pathsWithoutPrefix rest prefixDir
      else pathsWithoutPrefix rest prefixDir
  end.

Definition procMount : Mount :=
  {| Mount_Destination := "/proc";
     Mount_Type := "bind";
     Mount_Source := "/proc";
     Mount_Options := ["rbind"] |}.

Definition runWithBoundProc (s : Spec) (w : World) : Res :=
  let s := with_Mounts s (removeMountsWithPrefix (Spec_Mounts s) "/proc") in
  let s := with_Mounts s ([procMount] ++ Spec_Mounts s)%list in
  match Spec_Linux s with
  | None => Panicked "nil pointer dereference: s.Linux"
  | Some l =>
      let maskedPaths := pathsWithoutPrefix (Linux_MaskedPaths l) "/proc" in
      let readonlyPaths := pathsWithoutPrefix (Linux_ReadonlyPaths l) "/proc" in
      Returned None (with_Linux s (with_Paths l maskedPaths readonlyPaths)) w
  end.

Definition runWithDefaultProfile (s : Spec) (w : World) : Res :=
  let (profile, err) := seccomp_GetDefaultProfile s in
  match Spec_Linux s with
  | None => Panicked "nil pointer dereference: s.Linux"
  | Some l => Returned err (with_Linux s (with_Seccomp l profile)) w
  end.

Definition runWithSelinuxLabels (selinuxB : bool) (options : list string)
    (s : Spec) (w : World) : Res :=
  if selinuxB then
    let '(processLabel, mountLabel, err) := label_InitLabels options in
    match Spec_Process s, Spec_Linux s with
    | Some p, Some l =>
        Returned err
          (with_Linux (with_Process s (with_SelinuxLabel p processLabel))
                      (with_MountLabel l mountLabel)) w
    | None, _ => Panicked "nil pointer dereference: s.Process"
    | _, None => Panicked "nil pointer dereference: s.Linux"
    end
  else Returned None s w.

Definition runWithRlimits (rlimits : list POSIXRlimit) (s : Spec) (w : World)
  : Res :=
  match Spec_Process s with
  | None => Panicked "nil pointer dereference: s.Process"
  | Some p => Returned None (with_Process s (with_Rlimits p rlimits)) w
  end.

Definition runWithCDIDevices (devs : list (option CDIDevice)) (s : Spec)
    (w : World) : Res :=
  let w := logged w Ev_Refresh in
  let (m, err) := manager_Refresh (World_manager w) in
  let w := with_manager w m in
  let w := match err with
           | Some e => logged w (Ev_Warnf "CDI registry refresh failed: %v" e)
           | None => w
           end in
  let w := logged w (Ev_InjectDevices devs) in
  let '(m, s, err) := manager_InjectDevices (World_manager w) s devs in
  let w := with_manager w m in
  match err with
  | Some e => Returned (Some (errors_Wrapf e "CDI device injection failed")) s w
  | None => Returned None s w
  end.

Definition runSpecOpts (o : SpecOpts) (s : Spec) (w : World) : Res :=
  match o with
  | External x => let (s', err) := runExternal x s in Returned err s' w
  | withSelinuxLabels selinuxB options => runWithSelinuxLabels selinuxB options s w
  | withDefaultProfile => runWithDefaultProfile s w
  | withBoundProc => runWithBoundProc s w
  | withRlimits rlimits => runWithRlimits rlimits s w
  | withCDIDevices devs => runWithCDIDevices devs s w
  end.

(** The orchestrator's loop over the mutators (containerd's [ApplyOpts]):
    each is run on the spec the previous one left; the first error stops. *)
Fixpoint ApplyOpts (opts : list SpecOpts) (s : Spec) (w : World) : Res :=
  match opts with
  | [] => Returned None s w
  | o :: rest =>
      match runSpecOpts o s w with
      | Returned None s' w' => ApplyOpts rest s' w'
      | stopped => stopped
      end
  end.


(** *** Facts about the mutators *)

Lemma removeMountsWithPrefix_filter (mounts : list Mount) (prefixDir : string) :
  removeMountsWithPrefix mounts prefixDir =
  filter (fun m => negb (hasPrefix (Mount_Destination m) prefixDir)) mounts.
Proof.
  induction mounts as [|m rest IH]; simpl; [reflexivity|].
  rewrite IH. reflexivity.
Qed.

Lemma pathsWithoutPrefix_filter (paths : list string) (prefixDir : string) :
  pathsWithoutPrefix paths prefixDir =
  filter (fun p => negb (hasPrefix p prefixDir)) paths.
Proof.
  induction paths as [|q rest IH]; simpl; [reflexivity|].
  rewrite IH. reflexivity.
Qed.

Lemma In_removeMountsWithPrefix (mounts : list Mount) (prefixDir : string) (m : Mount) :
  In m (removeMountsWithPrefix mounts prefixDir) <->
  In m mounts /\ hasPrefix (Mount_Destination m) prefixDir = false.
Proof.
  rewrite removeMountsWithPrefix_filter, filter_In, negb_true_iff. reflexivity.
Qed.

Lemma In_pathsWithoutPrefix (paths : list string) (prefixDir q : string) :
  In q (pathsWithoutPrefix paths prefixDir) <->
  In q paths /\ hasPrefix q prefixDir = false.
Proof.
  rewrite pathsWithoutPrefix_filter, filter_In, negb_true_iff. reflexivity.
Qed.

Lemma runWithBoundProc_eq (s : Spec) (l : Linux) (w : World) :
  Spec_Linux s = Some l ->
  runWithBoundProc s w =
  Returned None
    {| Spec_Version := Spec_Version s; Spec_Process := Spec_Process s;
       Spec_Hostname := Spec_Hostname s;
       Spec_Mounts := procMount :: removeMountsWithPrefix (Spec_Mounts s) "/proc";
       Spec_Hooks := Spec_Hooks s;
       Spec_Linux :=
         Some (with_Paths l (pathsWithoutPrefix (Linux_MaskedPaths l) "/proc")
                            (pathsWithoutPrefix (Linux_ReadonlyPaths l) "/proc")) |}
    w.
Proof.
  intros HL. unfold runWithBoundProc. simpl. rewrite HL. reflexivity.
Qed.

Lemma runWithBoundProc_nil_Linux (s : Spec) (w : World) :
  Spec_Linux s = None ->
  exists why, runWithBoundProc s w = Panicked why.
Proof.
  intros HL. unfold runWithBoundProc. simpl. rewrite HL. eauto.
Qed.

Lemma removeMountsWithPrefix_Forall (mounts : list Mount) (prefixDir : string) :
  Forall (fun m => hasPrefix (Mount_Destination m) prefixDir = false)
         (removeMountsWithPrefix mounts prefixDir).
Proof.
  apply Forall_forall. intros m Hm.
  apply In_removeMountsWithPrefix in Hm. tauto.
Qed.

Lemma pathsWithoutPrefix_Forall (paths : list string) (prefixDir : string) :
  Forall (fun q => hasPrefix q prefixDir = false)
         (pathsWithoutPrefix paths prefixDir).
Proof.
  apply Forall_forall. intros q Hq.
  apply In_pathsWithoutPrefix in Hq. tauto.
Qed.

(** C3. Process Mode Generator. For [NoProcessSandbox] (host PID namespace)
    the generator emits the host-namespace mutator followed by
    [withBoundProc]. Whenever the former leaves a spec [s1] with a Linux
    block, applying the two succeeds and, in the result: the first mount is
    the bind mount of /proc from the host's /proc with options exactly
    [rbind] (so without [ro]); the mounts after it are, in order, the mounts
    of [s1] whose destination does not have the /proc prefix, so every
    mount that had it is removed; the masked paths and the read-only paths
    are those of [s1] without the /proc prefix, so none that remains has it.
    For [ProcessSandbox], the default, no mutator is emitted. *)
Theorem process_mode_host_binds_proc :
  forall (s s1 : Spec) (l1 : Linux) (w : World),
    runExternal (oci_WithHostNamespace PIDNamespace) s = (s1, None) ->
    Spec_Linux s1 = Some l1 ->
    generateProcessModeOpts ProcessSandbox = ([], None) /\
    exists (opts : list SpecOpts) (s' : Spec) (rest : list Mount) (l' : Linux),
      generateProcessModeOpts NoProcessSandbox = (opts, None) /\
      ApplyOpts opts s w = Returned None s' w /\
      Spec_Mounts s' =
        {| Mount_Destination := "/proc"; Mount_Type := "bind";
           Mount_Source := "/proc"; Mount_Options := ["rbind"] |} :: rest /\
      rest = filter (fun m => negb (hasPrefix (Mount_Destination m) "/proc"))
                    (Spec_Mounts s1) /\
      Forall (fun m => hasPrefix (Mount_Destination m) "/proc" = false) rest /\
      Spec_Linux s' = Some l' /\
      Linux_MaskedPaths l' =
        filter (fun p => negb (hasPrefix p "/proc")) (Linux_MaskedPaths l1) /\
      Forall (fun p => hasPrefix p "/proc" = false) (Linux_MaskedPaths l') /\
      Linux_ReadonlyPaths l' =
        filter (fun p => negb (hasPrefix p "/proc")) (Linux_ReadonlyPaths l1) /\
      Forall (fun p => hasPrefix p "/proc" = false) (Linux_ReadonlyPaths l').
Proof.
  intros s s1 l1 w Hext HL. split; [reflexivity|].
  exists [External (oci_WithHostNamespace PIDNamespace); withBoundProc].
  eexists. exists (removeMountsWithPrefix (Spec_Mounts s1) "/proc").
  eexists. split; [reflexivity|]. split.
  - simpl. rewrite Hext. rewrite (runWithBoundProc_eq s1 l1 w HL). reflexivity.
  - simpl. repeat split.
    + apply removeMountsWithPrefix_filter.
    + apply removeMountsWithPrefix_Forall.
    + apply pathsWithoutPrefix_filter.
    + apply pathsWithoutPrefix_Forall.
    + apply pathsWithoutPrefix_filter.
    + apply pathsWithoutPrefix_Forall.
Qed.

(** What a refresh outcome adds to the log: a warning on failure only. *)
Definition refreshWarning (rerr : option error) : list Event :=
  match rerr with
  | Some e => [Ev_Warnf "CDI registry refresh failed: %v" e]
  | None => []
  end.

(** C7. Device Injection Generator. An empty device list yields no mutator;
    a non-empty one yields the single mutator [withCDIDevices devs]. Each
    run of that mutator, from any spec and any registry state, first calls
    the registry refresh, then (after a warning if the refresh failed, and
    whatever its outcome) calls the injection on the refreshed registry; the
    mutator's error is nil when the injection's is, and the injection's
    error wrapped with the message CDI device injection failed otherwise. *)
Theorem cdi_injection_refreshes_first :
  forall (devs : list (option CDIDevice)) (s : Spec) (w : World),
    devs <> [] ->
    generateCDIOpts [] = ([], None) /\
    generateCDIOpts devs = ([withCDIDevices devs], None) /\
    forall (m1 m2 : Manager) (rerr ierr : option error) (s2 : Spec),
      manager_Refresh (World_manager w) = (m1, rerr) ->
      manager_InjectDevices m1 s devs = (m2, s2, ierr) ->
      runSpecOpts (withCDIDevices devs) s w =
        Returned
          (option_map (fun e => errors_Wrapf e "CDI device injection failed") ierr)
          s2
          {| World_manager := m2;
             World_events :=
               (World_events w ++ [Ev_Refresh] ++ refreshWarning rerr
                ++ [Ev_InjectDevices devs])%list |}.
Proof.
  intros devs s w Hne. split; [reflexivity|]. split.
  - destruct devs; [contradiction|reflexivity].
  - intros m1 m2 rerr ierr s2 HR HI.
    simpl. unfold runWithCDIDevices. simpl. rewrite HR.
    destruct rerr as [e|]; simpl; rewrite HI; destruct ierr; simpl;
      unfold with_manager, logged; simpl;
      rewrite <- ?app_assoc; reflexivity.
Qed.

(** C10. Resource Limit Generator, frame. For a non-empty request list the
    generator emits one mutator carrying the limits computed from the
    requests alone. Run on a spec with a process block, it succeeds, sets
    the process's resource limits to exactly those limits, whatever limits
    were there before, and leaves every other field of the process and of
    the spec, and the world, as they were. So a limit set earlier that is
    not among the new ones does not survive. *)
Theorem rlimits_replace_wholesale :
  forall (toUpper : string -> string) (ulimits : list (option Ulimit))
         (s : Spec) (p : Process) (w : World),
    ulimits <> [] ->
    Spec_Process s = Some p ->
    exists rlimits : list POSIXRlimit,
      generateRlimitOpts toUpper ulimits = ([withRlimits rlimits], None) /\
      rlimits = appendRlimits toUpper ulimits [] /\
      ApplyOpts [withRlimits rlimits] s w =
        Returned None
          {| Spec_Version := Spec_Version s;
             Spec_Process :=
               Some {| Process_Args := Process_Args p;
                       Process_Env := Process_Env p;
                       Process_Cwd := Process_Cwd p;
                       Process_Rlimits := rlimits;
                       Process_ApparmorProfile := Process_ApparmorProfile p;
                       Process_SelinuxLabel := Process_SelinuxLabel p |};
             Spec_Hostname := Spec_Hostname s;
             Spec_Mounts := Spec_Mounts s;
             Spec_Hooks := Spec_Hooks s;
             Spec_Linux := Spec_Linux s |}
          w /\
      forall r, In r (Process_Rlimits p) -> ~ In r rlimits ->
        forall s' w', ApplyOpts [withRlimits rlimits] s w = Returned None s' w' ->
        forall p', Spec_Process s' = Some p' -> ~ In r (Process_Rlimits p').
Proof.
  intros toUpper ulimits s p w Hne HP.
  exists (appendRlimits toUpper ulimits []).
  assert (Hrun : forall rl,
            ApplyOpts [withRlimits rl] s w =
            Returned None (with_Process s (with_Rlimits p rl)) w).
  { intros rl. simpl. unfold runWithRlimits. rewrite HP. reflexivity. }
  split.
  - unfold generateRlimitOpts. destruct ulimits; [contradiction|reflexivity].
  - split; [reflexivity|]. split.
    + apply Hrun.
    + intros r _ Hnot s' w' Hs' p' Hp'.
      rewrite Hrun in Hs'. inversion Hs'; subst s' w'.
      simpl in Hp'. inversion Hp'; subst p'. simpl. exact Hnot.
Qed.

Lemma runWithRlimits_nil_Process (rlimits : list POSIXRlimit) (s : Spec) (w : World) :
  Spec_Process s = None ->
  exists why, runSpecOpts (withRlimits rlimits) s w = Panicked why.
Proof.
  intros HP. simpl. unfold runWithRlimits. rewrite HP. eauto.
Qed.

End Mutators.

Arguments Returned {Manager} err s w.
Arguments Panicked {Manager} why.

(** ** cgroupV2NamespaceSupported *)

(** The error numbers [os.Stat] can fail with. *)
Inductive Errno : Type := ENOENT | EACCES | ENOTDIR | ELOOP | ENAMETOOLONG.

(** [os.IsNotExist]: only a not-found error qualifies, nil does not. *)
Definition os_IsNotExist (err : option Errno) : bool :=
  match err with
  | Some ENOENT => true
  | _ => false
  end.

(** The host file system as the probe meets it: which paths name a file,
    and what [os.Stat] answers ([None] is success). *)
Record HostFS : Type := {
  HostFS_exists : string -> bool;
  os_Stat : string -> option Errno
}.

(** The package variables [cgroupNSOnce] (whether the [sync.Once] has run)
    and [supportsCgroupNS], with the [os.Stat] calls made so far. *)
Record Globals : Type := {
  cgroupNSOnce : bool;
  supportsCgroupNS : bool;
  statCalls : list string
}.

Definition initGlobals : Globals :=
  {| cgroupNSOnce := false; supportsCgroupNS := false; statCalls := [] |}.

Definition statted (g : Globals) (path : string) : Globals :=
  {| cgroupNSOnce := cgroupNSOnce g;
     supportsCgroupNS := supportsCgroupNS g;
     statCalls := (statCalls g ++ [path])%list |}.

(** The function handed to [cgroupNSOnce.Do]. *)
Definition probeCgroupNS (h : HostFS) (g : Globals) : Globals :=
  let g := statted g "/proc/self/ns/cgroup" in
  if os_IsNotExist (os_Stat h "/proc/self/ns/cgroup") then g
  else
    let g := statted g "/sys/fs/cgroup/cgroup.subtree_control" in
    if os_IsNotExist (os_Stat h "/sys/fs/cgroup/cgroup.subtree_control") then g
    else {| cgroupNSOnce := cgroupNSOnce g;
            supportsCgroupNS := true;
            statCalls := statCalls g |}.

(** [sync.Once.Do]: the function runs on the first call only. *)
Definition Once_Do (f : Globals -> Globals) (g : Globals) : Globals :=
  if cgroupNSOnce g then g
  else
    let g := f g in
    {| cgroupNSOnce := true;
       supportsCgroupNS := supportsCgroupNS g;
       statCalls := statCalls g |}.

Definition cgroupV2NamespaceSupported (h : HostFS) (g : Globals)
  : bool * Globals :=
  let g := Once_Do (probeCgroupNS h) g in
  (supportsCgroupNS g, g).

(** Successive calls, each meeting the host as it is at that time. *)
Fixpoint laterCalls (hosts : list HostFS) (g : Globals) : list bool * Globals :=
  match hosts with
  | [] => ([], g)
  | h :: rest =>
      let (r, g) := cgroupV2NamespaceSupported h g in
      let (rs, g) := laterCalls rest g in
      (r :: rs, g)
  end.

(** On [path], a missing file shows as a not-found answer of [os.Stat],
    and only a missing file does. *)
Definition absence_is_not_found (h : HostFS) (path : string) : Prop :=
  HostFS_exists h path = false <-> os_IsNotExist (os_Stat h path) = true.

Lemma cgroupV2NamespaceSupported_first (h : HostFS) :
  fst (cgroupV2NamespaceSupported h initGlobals) =
  negb (os_IsNotExist (os_Stat h "/proc/self/ns/cgroup")) &&
  negb (os_IsNotExist (os_Stat h "/sys/fs/cgroup/cgroup.subtree_control")).
Proof.
  unfold cgroupV2NamespaceSupported, Once_Do, probeCgroupNS. simpl.
  destruct (os_IsNotExist (os_Stat h "/proc/self/ns/cgroup")); simpl;
    [reflexivity|].
  destruct (os_IsNotExist (os_Stat h "/sys/fs/cgroup/cgroup.subtree_control"));
    reflexivity.
Qed.

Lemma cgroupV2NamespaceSupported_done (h : HostFS) (g : Globals) :
  cgroupNSOnce g = true ->
  cgroupV2NamespaceSupported h g = (supportsCgroupNS g, g).
Proof.
  intros Hd. unfold cgroupV2NamespaceSupported, Once_Do. rewrite Hd. reflexivity.
Qed.

Lemma cgroupV2NamespaceSupported_marks_done (h : HostFS) (g : Globals) :
  cgroupNSOnce (snd (cgroupV2NamespaceSupported h g)) = true.
Proof.
  unfold cgroupV2NamespaceSupported, Once_Do. simpl.
  destruct (cgroupNSOnce g) eqn:Hd; [exact Hd|reflexivity].
Qed.

Lemma laterCalls_cached (hosts : list HostFS) (g : Globals) :
  cgroupNSOnce g = true ->
  laterCalls hosts g = (map (fun _ => supportsCgroupNS g) hosts, g).
Proof.
  intros Hd. induction hosts as [|h rest IH]; cbn [laterCalls map];
    [reflexivity|].
  rewrite (cgroupV2NamespaceSupported_done h g Hd), IH. reflexivity.
Qed.

(** A [Stat] that fails otherwise than with not-found passes the check. *)
Lemma cgroupV2NamespaceSupported_other_errors (h : HostFS) :
  os_Stat h "/proc/self/ns/cgroup" = Some EACCES ->
  os_Stat h "/sys/fs/cgroup/cgroup.subtree_control" = Some ENOTDIR ->
  fst (cgroupV2NamespaceSupported h initGlobals) = true.
Proof.
  intros H1 H2. rewrite cgroupV2NamespaceSupported_first, H1, H2. reflexivity.
Qed.

(** On a host where, for the two probed paths, a missing file shows as a
    not-found answer of the existence check, the first call returns true
    if and only if /proc/self/ns/cgroup and
    /sys/fs/cgroup/cgroup.subtree_control both exist, and false (a value,
    not a failure) if either is missing. The result is cached: every later
    call, whatever the host has become, returns that same value and makes
    no further existence check. *)
Theorem cgroupV2NamespaceSupported_cached_iff_both_exist :
  forall (h : HostFS) (later : list HostFS),
    absence_is_not_found h "/proc/self/ns/cgroup" ->
    absence_is_not_found h "/sys/fs/cgroup/cgroup.subtree_control" ->
    let (r, g) := cgroupV2NamespaceSupported h initGlobals in
    (r = true <->
       HostFS_exists h "/proc/self/ns/cgroup" = true /\
       HostFS_exists h "/sys/fs/cgroup/cgroup.subtree_control" = true) /\
    (HostFS_exists h "/proc/self/ns/cgroup" = false \/
     HostFS_exists h "/sys/fs/cgroup/cgroup.subtree_control" = false ->
     r = false) /\
    let (rs, g') := laterCalls later g in
    Forall (fun r' => r' = r) rs /\
    List.length rs = List.length later /\
    statCalls g' = statCalls g.
Proof.
  intros h later [A1 B1] [A2 B2].
  pose proof (cgroupV2NamespaceSupported_first h) as Hfst.
  pose proof (cgroupV2NamespaceSupported_marks_done h initGlobals) as Hdone.
  destruct (cgroupV2NamespaceSupported h initGlobals) as [r g] eqn:Hcall.
  simpl in Hfst, Hdone.
  assert (Hr : r = supportsCgroupNS g).
  { unfold cgroupV2NamespaceSupported in Hcall. inversion Hcall. reflexivity. }
  assert (Hiff : r = true <->
       HostFS_exists h "/proc/self/ns/cgroup" = true /\
       HostFS_exists h "/sys/fs/cgroup/cgroup.subtree_control" = true).
  { rewrite Hfst, andb_true_iff, !negb_true_iff.
    destruct (HostFS_exists h "/proc/self/ns/cgroup");
      destruct (HostFS_exists h "/sys/fs/cgroup/cgroup.subtree_control");
      destruct (os_IsNotExist (os_Stat h "/proc/self/ns/cgroup"));
      destruct (os_IsNotExist (os_Stat h "/sys/fs/cgroup/cgroup.subtree_control"));
      intuition congruence. }
  split; [exact Hiff|]. split.
  - intros Habs. destruct r; [|reflexivity].
    destruct Hiff as [Hboth _]. destruct (Hboth eq_refl) as [E1 E2].
    destruct Habs as [Habs|Habs]; congruence.
  - rewrite (laterCalls_cached later g Hdone). repeat split.
    + apply Forall_forall. intros r' Hin. apply in_map_iff in Hin.
      destruct Hin as [_ [Heq _]]. congruence.
    + apply length_map.
Qed.

(** C8, as amended. Capability Probe. On any host, the first call returns
    true if and only if neither existence check, of /proc/self/ns/cgroup
    and of /sys/fs/cgroup/cgroup.subtree_control, answers not-found: a
    check that succeeds or that fails with any other error counts as the
    path being there. If either check answers not-found the call returns
    false, a value and not a failure. The result is cached: every later
    call, whatever the host has become, returns that same value and makes
    no further existence check. *)
Theorem cgroupV2NamespaceSupported_cached_unless_not_found :
  forall (h : HostFS) (later : list HostFS),
    let (r, g) := cgroupV2NamespaceSupported h initGlobals in
    (r = true <->
       os_Stat h "/proc/self/ns/cgroup" <> Some ENOENT /\
       os_Stat h "/sys/fs/cgroup/cgroup.subtree_control" <> Some ENOENT) /\
    (os_IsNotExist (os_Stat h "/proc/self/ns/cgroup") = true \/
     os_IsNotExist (os_Stat h "/sys/fs/cgroup/cgroup.subtree_control") = true ->
     r = false) /\
    (forall e1 e2,
       os_Stat h "/proc/self/ns/cgroup" = e1 ->
       os_Stat h "/sys/fs/cgroup/cgroup.subtree_control" = e2 ->
       e1 <> Some ENOENT -> e2 <> Some ENOENT -> r = true) /\
    let (rs, g') := laterCalls later g in
    Forall (fun r' => r' = r) rs /\
    List.length rs = List.length later /\
    statCalls g' = statCalls g.
Proof.
  intros h later.
  pose proof (cgroupV2NamespaceSupported_first h) as Hfst.
  pose proof (cgroupV2NamespaceSupported_marks_done h initGlobals) as Hdone.
  destruct (cgroupV2NamespaceSupported h initGlobals) as [r g] eqn:Hcall.
  simpl in Hfst, Hdone.
  assert (Hr : r = supportsCgroupNS g).
  { unfold cgroupV2NamespaceSupported in Hcall. inversion Hcall. reflexivity. }
  assert (Hno : forall e, os_IsNotExist e = false <-> e <> Some ENOENT).
  { intros [[| | | |]|]; simpl; split; intros H; try reflexivity;
      try discriminate; try congruence. }
  assert (Hiff : r = true <->
       os_Stat h "/proc/self/ns/cgroup" <> Some ENOENT /\
       os_Stat h "/sys/fs/cgroup/cgroup.subtree_control" <> Some ENOENT).
  { rewrite Hfst, andb_true_iff, !negb_true_iff, !Hno. reflexivity. }
  split; [exact Hiff|]. split; [|split].
  - intros Hnf. rewrite Hfst.
    destruct Hnf as [-> | ->]; [reflexivity|apply andb_false_r].
  - intros e1 e2 H1 H2 N1 N2. apply Hiff. subst e1 e2. split; assumption.
  - rewrite (laterCalls_cached later g Hdone). repeat split.
    + apply Forall_forall. intros r' Hin. apply in_map_iff in Hin.
      destruct Hin as [_ [Heq _]]. congruence.
    + apply length_map.
Qed.

(** A host without cgroup v2: /sys/fs/cgroup/cgroup.subtree_control does
    not exist, and the check of it fails with not-a-directory, a component
    of the path being a plain file. *)
Definition host_cgroup_not_a_directory : HostFS :=
  {| HostFS_exists := fun p => p =? "/proc/self/ns/cgroup";
     os_Stat := fun p => if p =? "/proc/self/ns/cgroup" then None
                         else Some ENOTDIR |}.

(** C8 as stated: the probe returns true if and only if both paths exist.
    On this host the second path does not exist, its check does not answer
    not-found, and the probe returns true. *)
Lemma cgroupV2NamespaceSupported_true_without_file :
  HostFS_exists host_cgroup_not_a_directory
    "/sys/fs/cgroup/cgroup.subtree_control" = false /\
  os_Stat host_cgroup_not_a_directory
    "/sys/fs/cgroup/cgroup.subtree_control" = Some ENOTDIR /\
  fst (cgroupV2NamespaceSupported host_cgroup_not_a_directory initGlobals) = true /\
  ~ (fst (cgroupV2NamespaceSupported host_cgroup_not_a_directory initGlobals) = true <->
     HostFS_exists host_cgroup_not_a_directory "/proc/self/ns/cgroup" = true /\
     HostFS_exists host_cgroup_not_a_directory
       "/sys/fs/cgroup/cgroup.subtree_control" = true).
Proof.
  repeat split. intros [H _]. destruct (H eq_refl) as [_ Habs]. discriminate Habs.
Qed.

(** ** sub: the safe subpath resolver *)

(** containerd's [mount.Mount]. *)
Record mount_Mount : Type := {
  mount_Mount_Type : string;
  mount_Mount_Source : string;
  mount_Mount_Target : string;
  mount_Mount_Options : list string
}.

(** The zero value [mount.Mount{}] returned beside an error. *)
Definition mount_Mount_zero : mount_Mount :=
  {| mount_Mount_Type := ""; mount_Mount_Source := "";
     mount_Mount_Target := ""; mount_Mount_Options := [] |}.

Definition with_Source (m : mount_Mount) (source : string) : mount_Mount :=
  {| mount_Mount_Type := mount_Mount_Type m; mount_Mount_Source := source;
     mount_Mount_Target := mount_Mount_Target m;
     mount_Mount_Options := mount_Mount_Options m |}.

(** The release function [sub] returns: the [Unmount] method of the local
    mounter built over the given mounts. *)
Inductive Release : Type :=
| lm_Unmount (mounts : list mount_Mount).

(** [unix.O_PATH] and [unix.O_CLOEXEC] on Linux. *)
Definition unix_O_PATH : Z := 0x200000.
Definition unix_O_CLOEXEC : Z := 0x80000.

(** [strconv.Itoa] of a file descriptor number. *)
Definition strconv_Itoa (n : nat) : string :=
  NilEmpty.string_of_uint (Nat.to_uint n).

(** The system calls [sub] makes, as they are logged. *)
Inductive Syscall : Type :=
| Sys_RootPath (root path : string)
| Sys_OpenFile (name : string) (flag : Z)
| Sys_Readlink (name : string)
| Sys_Close (fd : nat)
| Sys_Mount (mounts : list mount_Mount).

Definition isOpenFile (c : Syscall) : bool :=
  match c with Sys_OpenFile _ _ => true | _ => false end.
Definition isReadlink (c : Syscall) : bool :=
  match c with Sys_Readlink _ => true | _ => false end.
Definition isClose (c : Syscall) : bool :=
  match c with Sys_Close _ => true | _ => false end.
Definition isMount (c : Syscall) : bool :=
  match c with Sys_Mount _ => true | _ => false end.

Definition count (f : Syscall -> bool) (calls : list Syscall) : nat :=
  List.length (filter f calls).

Section Subpath.

(** The file system [sub] works on: a state that every call may change, as
    may whoever else works on it between two calls. *)
Variable FS : Type.
Variable fs_RootPath : FS -> string -> string -> FS * (string + error).
Variable os_OpenFile : FS -> string -> Z -> FS * (nat + error).
Variable os_Readlink : FS -> string -> FS * (string + error).
Variable File_Close : FS -> nat -> FS.
Variable LocalMounter_Mount : FS -> list mount_Mount -> FS * (string + error).

(** State passing: the file system and the log of the calls made. *)
Definition Sys (A : Type) : Type := FS * list Syscall -> A * (FS * list Syscall).

Definition ret {A : Type} (a : A) : Sys A := fun w => (a, w).

Definition bind {A B : Type} (c : Sys A) (k : A -> Sys B) : Sys B :=
  fun w => let (a, w') := c w in k a w'.

Notation "x <- c ;; k" := (bind c (fun x => k))
  (at level 61, c at next level, right associativity).

Definition call {A : Type} (ev : Syscall) (f : FS -> FS * A) : Sys A :=
  fun w => let (fs', a) := f (fst w) in (a, (fs', (snd w ++ [ev])%list)).

Definition RootPath (root path : string) : Sys (string + error) :=
  call (Sys_RootPath root path) (fun fs => fs_RootPath fs root path).

Definition OpenFile (name : string) (flag : Z) : Sys (nat + error) :=
  call (Sys_OpenFile name flag) (fun fs => os_OpenFile fs name flag).

Definition Readlink (name : string) : Sys (string + error) :=
  call (Sys_Readlink name) (fun fs => os_Readlink fs name).

Definition Close (fh : nat) : Sys unit :=
  call (Sys_Close fh) (fun fs => (File_Close fs fh, tt)).

Definition lm_Mount (mounts : list mount_Mount) : Sys (string + error) :=
  call (Sys_Mount mounts) (fun fs => LocalMounter_Mount fs mounts).

(** The [for] loop of [sub]. [retries] is the budget left on entry: after a
    mismatch the code decrements it and gives up when it is [<= 0], that is
    unless it was at least 2 before. *)
Fixpoint sub_loop (retries : nat) (root : string) (m : mount_Mount)
    (subPath : string) : Sys (mount_Mount * option Release * option error) :=
  r <- RootPath root subPath ;;
  match r with
  | inr err => ret (mount_Mount_zero, None, Some err)
  | inl src =>
      r <- OpenFile src (Z.lor unix_O_PATH unix_O_CLOEXEC) ;;
      match r with
      | inr err => ret (mount_Mount_zero, None, Some (errors_WithStack err))
      | inl fh =>
          let fdPath := "/proc/self/fd/" ++ strconv_Itoa fh in
          r <- Readlink fdPath ;;
          match r with
          | inr err =>
              _ <- Close fh ;;
              ret (mount_Mount_zero, None, Some (errors_WithStack err))
          | inl resolved =>
              if negb (resolved =? src) then
                match retries with
                | S (S _ as retries') =>
                    _ <- Close fh ;;
                    sub_loop retries' root m subPath
                | _ =>
                    _ <- Close fh ;;
                    ret (mount_Mount_zero, None,
                         Some (errors_Errorf
                                 "unable to safely resolve subpath %s" subPath))
                end
              else
                let m := with_Source m fdPath in
                r <- lm_Mount [m] ;;
                match r with
                | inr err =>
                    _ <- Close fh ;;
                    ret (mount_Mount_zero, None, Some err)
                | inl mp =>
                    let m' := with_Source m mp in
                    _ <- Close fh ;;
                    ret (m', Some (lm_Unmount [m]), None)
                end
          end
      end
  end.

Definition sub (m : mount_Mount) (subPath : string)
  : Sys (mount_Mount * option Release * option error) :=
  let retries := 10%nat in
  let root := mount_Mount_Source m in
  sub_loop retries root m subPath.


(** *** Facts about [sub] *)

(** One attempt from [fs] that loses the race: the path computes, opens
    and reads back, but reads back different; [fs'] is the file system once
    the descriptor is closed. *)
Definition raced_attempt (root subPath : string) (fs fs' : FS) : Prop :=
  exists (src : string) (fs1 : FS) (fh : nat) (fs2 : FS) (resolved : string)
         (fs3 : FS),
    fs_RootPath fs root subPath = (fs1, inl src) /\
    os_OpenFile fs1 src (Z.lor unix_O_PATH unix_O_CLOEXEC) = (fs2, inl fh) /\
    os_Readlink fs2 ("/proc/self/fd/" ++ strconv_Itoa fh) = (fs3, inl resolved) /\
    resolved <> src /\
    fs' = File_Close fs3 fh.

Definition race_detected (subPath : string)
  : mount_Mount * option Release * option error :=
  (mount_Mount_zero, None,
   Some (errors_Errorf "unable to safely resolve subpath %s" subPath)).

Lemma count_app (f : Syscall -> bool) (l1 l2 : list Syscall) :
  count f (l1 ++ l2) = (count f l1 + count f l2)%nat.
Proof.
  unfold count. rewrite filter_app, length_app. reflexivity.
Qed.

Lemma sub_loop_raced_step (retries : nat) (root : string) (m : mount_Mount)
    (subPath : string) (fs fs' : FS) (tr : list Syscall) :
  raced_attempt root subPath fs fs' ->
  exists evs : list Syscall,
    count isOpenFile evs = 1%nat /\ count isReadlink evs = 1%nat /\
    count isClose evs = 1%nat /\ count isMount evs = 0%nat /\
    sub_loop retries root m subPath (fs, tr) =
      match retries with
      | S (S _ as retries') =>
          sub_loop retries' root m subPath (fs', (tr ++ evs)%list)
      | _ => (race_detected subPath, (fs', (tr ++ evs)%list))
      end.
Proof.
  intros (src & fs1 & fh & fs2 & resolved & fs3 & HR & HO & HL & Hne & Hfs').
  exists [Sys_RootPath root subPath;
          Sys_OpenFile src (Z.lor unix_O_PATH unix_O_CLOEXEC);
          Sys_Readlink ("/proc/self/fd/" ++ strconv_Itoa fh);
          Sys_Close fh].
  repeat (split; [reflexivity|]).
  apply String.eqb_neq in Hne.
  assert (Hhead : forall k,
    (r <- RootPath root subPath ;;
     match r with
     | inr err => ret (mount_Mount_zero, None, Some err)
     | inl src0 =>
         r0 <- OpenFile src0 (Z.lor unix_O_PATH unix_O_CLOEXEC) ;;
         match r0 with
         | inr err => ret (mount_Mount_zero, None, Some (errors_WithStack err))
         | inl fh0 =>
             r1 <- Readlink ("/proc/self/fd/" ++ strconv_Itoa fh0) ;;
             match r1 with
             | inr err =>
                 _ <- Close fh0 ;;
                 ret (mount_Mount_zero, None, Some (errors_WithStack err))
             | inl resolved0 =>
                 if negb (resolved0 =? src0) then _ <- Close fh0 ;; k
                 else
                   r2 <- lm_Mount [with_Source m ("/proc/self/fd/" ++ strconv_Itoa fh0)] ;;
                   match r2 with
                   | inr err =>
                       _ <- Close fh0 ;;
                       ret (mount_Mount_zero, None, Some err)
                   | inl mp =>
                       _ <- Close fh0 ;;
                       ret (with_Source
                              (with_Source m ("/proc/self/fd/" ++ strconv_Itoa fh0)) mp,
                            Some (lm_Unmount
                                    [with_Source m ("/proc/self/fd/" ++ strconv_Itoa fh0)]),
                            None)
                   end
             end
         end
     end) (fs, tr) =
    k (fs', (tr ++ [Sys_RootPath root subPath;
                    Sys_OpenFile src (Z.lor unix_O_PATH unix_O_CLOEXEC);
                    Sys_Readlink ("/proc/self/fd/" ++ strconv_Itoa fh);
                    Sys_Close fh])%list)).
  { intros k. unfold bind, RootPath, OpenFile, Readlink, Close, call.
    cbn [fst snd]. rewrite HR. cbn [fst snd]. rewrite HO. cbn [fst snd].
    rewrite HL. rewrite Hne. cbn [negb fst snd]. subst fs'.
    rewrite <- !app_assoc. reflexivity. }
  destruct retries as [|[|n]]; cbn [sub_loop].
  - apply (Hhead (ret _)).
  - apply (Hhead (ret _)).
  - apply (Hhead (sub_loop (S n) root m subPath)).
Qed.

Lemma string_app_nil_r (s : string) : s ++ "" = s.
Proof.
  induction s as [|c s IH]; simpl; [reflexivity|]. rewrite IH. reflexivity.
Qed.




End Subpath.

(** ** Facts about the generators *)

(** C2. Security Mode Generator, sandboxed mode. When an AppArmor profile
    is named and the host does not support AppArmor, the generator returns
    an error and the empty mutator list, whatever the SELinux flag and the
    host's seccomp and SELinux support: the AppArmor error naming the
    profile, or the SELinux error when that check, made first, fails. *)
Theorem sandbox_apparmor_unsupported_fails :
  forall (h : Host) (apparmorProfile : string) (selinuxB : bool),
    apparmorProfile <> "" ->
    apparmor_HostSupports h = false ->
    exists err : error,
      generateSecurityOpts h SecurityMode_SANDBOX apparmorProfile selinuxB =
        ([], Some err) /\
      err = (if selinuxB && negb (selinux_GetEnabled h)
             then errors_New "selinux is not available"
             else errors_New
                    ("AppArmor is not supported on this host, but the profile '"
                     ++ apparmorProfile ++ "' was specified")).
Proof.
  intros h profile selinuxB Hne Happ.
  apply String.eqb_neq in Hne.
  unfold generateSecurityOpts.
  destruct (selinuxB && negb (selinux_GetEnabled h)).
  - eexists. split; reflexivity.
  - rewrite Hne, Happ. simpl. eexists. split; reflexivity.
Qed.

(** C4. Security Mode Generator, insecure mode. When SELinux labelling is
    requested and SELinux is disabled on the host, the generator returns
    the error whose message is selinux is not available, and no mutator
    list, whatever the AppArmor profile and the rest of the host. *)
Theorem insecure_selinux_unavailable_fails :
  forall (h : Host) (apparmorProfile : string),
    selinux_GetEnabled h = false ->
    exists err : error,
      generateSecurityOpts h SecurityMode_INSECURE apparmorProfile true =
        ([], Some err) /\
      Error err = "selinux is not available" /\
      Contains (Error err) "selinux" = true /\
      Contains (Error err) "not available" = true.
Proof.
  intros h profile Hsel.
  exists (errors_New "selinux is not available").
  unfold generateSecurityOpts. rewrite Hsel. simpl. repeat split.
Qed.

(** C5, as amended. Security Mode Generator, unspecified mode. The
    generator emits no mutator, whatever the AppArmor profile, the SELinux
    flag and the host. It returns no error either, except when SELinux
    labelling is requested and SELinux is disabled on the host: the check
    made before the mode is looked at then fails with the error
    selinux is not available. *)
Theorem unspecified_mode_no_mutation :
  forall (h : Host) (apparmorProfile : string) (selinuxB : bool),
    generateSecurityOpts h SecurityMode_UNSPECIFIED apparmorProfile selinuxB =
      ([], if selinuxB && negb (selinux_GetEnabled h)
           then Some (errors_New "selinux is not available")
           else None) /\
    (snd (generateSecurityOpts h SecurityMode_UNSPECIFIED apparmorProfile selinuxB)
       = None <->
     ~ (selinuxB = true /\ selinux_GetEnabled h = false)).
Proof.
  intros h profile selinuxB. unfold generateSecurityOpts.
  destruct selinuxB, (selinux_GetEnabled h); simpl;
    (split; [reflexivity|]); intuition (try discriminate; try congruence).
Qed.

(** The sandboxed arm, case by case. *)
Lemma generateSecurityOpts_SANDBOX (h : Host) (apparmorProfile : string)
    (selinuxB : bool) :
  generateSecurityOpts h SecurityMode_SANDBOX apparmorProfile selinuxB =
  if selinuxB && negb (selinux_GetEnabled h) then
    ([], Some (errors_New "selinux is not available"))
  else if negb (apparmorProfile =? "") && negb (apparmor_HostSupports h) then
    ([], Some (errors_New
                 ("AppArmor is not supported on this host, but the profile '"
                  ++ apparmorProfile ++ "' was specified")))
  else
    (((if cdseccomp_IsEnabled h then [withDefaultProfile] else [])
      ++ (if apparmorProfile =? "" then []
          else [External (oci_WithApparmorProfile apparmorProfile)])
      ++ [withSelinuxLabels selinuxB []])%list, None).
Proof.
  unfold generateSecurityOpts.
  destruct (selinuxB && negb (selinux_GetEnabled h)); [reflexivity|].
  destruct (apparmorProfile =? ""), (apparmor_HostSupports h),
    (cdseccomp_IsEnabled h); reflexivity.
Qed.

(** C6, as amended. Security Mode Generator, sandboxed mode. The generator
    fails exactly when SELinux labelling is requested with SELinux
    disabled, or an AppArmor profile is named with AppArmor unsupported;
    whether seccomp is supported plays no part in that. When it fails it
    returns no mutator at all, the seccomp one included. When it succeeds,
    the default seccomp profile mutator is in the list if and only if the
    host supports seccomp; when the host does not, the mutator is never in
    the list. *)
Theorem sandbox_seccomp_included_iff_supported :
  forall (h : Host) (apparmorProfile : string) (selinuxB : bool),
    let r := generateSecurityOpts h SecurityMode_SANDBOX apparmorProfile selinuxB in
    (snd r <> None <->
       (selinuxB = true /\ selinux_GetEnabled h = false) \/
       (apparmorProfile <> "" /\ apparmor_HostSupports h = false)) /\
    (snd r <> None -> fst r = []) /\
    (snd r = None ->
       (In withDefaultProfile (fst r) <-> cdseccomp_IsEnabled h = true)) /\
    (cdseccomp_IsEnabled h = false -> ~ In withDefaultProfile (fst r)).
Proof.
  intros h profile selinuxB r. subst r.
  rewrite generateSecurityOpts_SANDBOX.
  destruct (String.eqb_spec profile "") as [Hp|Hp];
    destruct selinuxB, (selinux_GetEnabled h), (cdseccomp_IsEnabled h),
      (apparmor_HostSupports h); cbn;
    (split; [|split; [|split]]);
    intuition (first [ discriminate | congruence
                     | left; split; reflexivity
                     | right; split; [assumption|reflexivity] ]).
Qed.

(** The requests that are not nil placeholders, in order. *)
Definition validUlimits (ulimits : list (option Ulimit)) : list Ulimit :=
  flat_map (fun o => match o with Some u => [u] | None => [] end) ulimits.

Lemma appendRlimits_map (toUpper : string -> string)
    (ulimits : list (option Ulimit)) (rlimits : list POSIXRlimit) :
  appendRlimits toUpper ulimits rlimits =
  (rlimits ++ map (rlimitOf toUpper) (validUlimits ulimits))%list.
Proof.
  revert rlimits. induction ulimits as [|[u|] rest IH]; intros rlimits; simpl.
  - rewrite app_nil_r. reflexivity.
  - rewrite IH, <- app_assoc. reflexivity.
  - apply IH.
Qed.

Lemma Sprintf_RLIMIT (name : string) : Sprintf "RLIMIT_%s" name = "RLIMIT_" ++ name.
Proof.
  simpl. rewrite string_app_nil_r. reflexivity.
Qed.

Lemma uint64_in_range (x : Z) : (0 <= x < 2 ^ 64)%Z -> uint64 x = x.
Proof.
  intros Hx. unfold uint64. apply Z.mod_small. exact Hx.
Qed.

(** What the claim asks of the entry [r] made for the request [u]. *)
Definition rlimit_for (toUpper : string -> string) (u : Ulimit) (r : POSIXRlimit)
  : Prop :=
  POSIXRlimit_Type r = "RLIMIT_" ++ toUpper (Ulimit_Name u) /\
  POSIXRlimit_Hard r = uint64 (Ulimit_Hard u) /\
  POSIXRlimit_Soft r = uint64 (Ulimit_Soft u) /\
  ((0 <= Ulimit_Hard u < 2 ^ 64)%Z -> POSIXRlimit_Hard r = Ulimit_Hard u) /\
  ((0 <= Ulimit_Soft u < 2 ^ 64)%Z -> POSIXRlimit_Soft r = Ulimit_Soft u).

Lemma rlimitOf_rlimit_for (toUpper : string -> string) (u : Ulimit) :
  rlimit_for toUpper u (rlimitOf toUpper u).
Proof.
  unfold rlimit_for, rlimitOf. cbn [POSIXRlimit_Type POSIXRlimit_Hard POSIXRlimit_Soft].
  split; [apply Sprintf_RLIMIT|].
  split; [reflexivity|]. split; [reflexivity|].
  split; apply uint64_in_range.
Qed.

(** C9. Resource Limit Generator. The empty request list yields no mutator
    at all. A non-empty list yields one mutator whose limits are, in order,
    one entry per request that is not nil: its type is RLIMIT_ followed by
    the upper-cased name, its hard and soft values are the request's, as
    unsigned 64-bit integers (unchanged when they fit). A list of one nil
    and one valid request thus yields exactly one entry. *)
Theorem rlimits_one_entry_per_valid_ulimit :
  forall (toUpper : string -> string) (ulimits : list (option Ulimit)),
    ulimits <> [] ->
    generateRlimitOpts toUpper [] = ([], None) /\
    (exists rlimits : list POSIXRlimit,
       generateRlimitOpts toUpper ulimits = ([withRlimits rlimits], None) /\
       List.length rlimits = List.length (validUlimits ulimits) /\
       Forall2 (rlimit_for toUpper) (validUlimits ulimits) rlimits) /\
    (forall u : Ulimit,
       exists r : POSIXRlimit,
         generateRlimitOpts toUpper [None; Some u] = ([withRlimits [r]], None) /\
         generateRlimitOpts toUpper [Some u; None] = ([withRlimits [r]], None) /\
         rlimit_for toUpper u r).
Proof.
  intros toUpper ulimits Hne. split; [reflexivity|]. split.
  - exists (map (rlimitOf toUpper) (validUlimits ulimits)). split.
    + unfold generateRlimitOpts. destruct ulimits as [|o rest]; [contradiction|].
      cbn [List.length Nat.eqb]. rewrite appendRlimits_map. reflexivity.
    + split; [apply length_map|].
      induction (validUlimits ulimits) as [|u us IH]; simpl; constructor;
        [apply rlimitOf_rlimit_for|exact IH].
  - intros u. exists (rlimitOf toUpper u).
    split; [reflexivity|]. split; [reflexivity|]. apply rlimitOf_rlimit_for.
Qed.

(** ** Concrete hosts and runs *)

(** [strings.ToUpper] on ASCII strings. *)
Definition upper_ascii (c : ascii) : ascii :=
  let n := nat_of_ascii c in
  if ((97 <=? n) && (n <=? 122))%nat then ascii_of_nat (n - 32) else c.

Fixpoint ToUpper_ascii (s : string) : string :=
  match s with
  | EmptyString => EmptyString
  | String c rest => String (upper_ascii c) (ToUpper_ascii rest)
  end.

(** [hasPrefix] on paths that are already clean: the path is the directory
    or lies below it. *)
Definition hasPrefix_clean (p prefixDir : string) : bool :=
  (p =? prefixDir) || prefix (prefixDir ++ "/") p.

(** containerd's host-namespace mutator: it makes sure the Linux block is
    there and drops the first namespace entry of the given type. The other
    collaborators' mutators are left as no-ops. *)
Definition emptyLinux : Linux :=
  {| Linux_Namespaces := []; Linux_MaskedPaths := []; Linux_ReadonlyPaths := [];
     Linux_Seccomp := None; Linux_MountLabel := "" |}.

Definition isNamespace (ns : LinuxNamespaceType) (n : LinuxNamespace) : bool :=
  match ns, LinuxNamespace_Type n with
  | PIDNamespace, PIDNamespace | NetworkNamespace, NetworkNamespace
  | MountNamespace, MountNamespace | IPCNamespace, IPCNamespace
  | UTSNamespace, UTSNamespace | UserNamespace, UserNamespace
  | CgroupNamespace, CgroupNamespace => true
  | _, _ => false
  end.

Fixpoint removeFirstNamespace (ns : LinuxNamespaceType)
    (namespaces : list LinuxNamespace) : list LinuxNamespace :=
  match namespaces with
  | [] => []
  | n :: rest =>
      if isNamespace ns n then rest else n :: removeFirstNamespace ns rest
  end.

Definition demo_runExternal (o : ExternalOpts) (s : Spec) : Spec * option error :=
  match o with
  | oci_WithHostNamespace ns =>
      let l := match Spec_Linux s with Some l => l | None => emptyLinux end in
      ({| Spec_Version := Spec_Version s; Spec_Process := Spec_Process s;
          Spec_Hostname := Spec_Hostname s; Spec_Mounts := Spec_Mounts s;
          Spec_Hooks := Spec_Hooks s;
          Spec_Linux :=
            Some {| Linux_Namespaces := removeFirstNamespace ns (Linux_Namespaces l);
                    Linux_MaskedPaths := Linux_MaskedPaths l;
                    Linux_ReadonlyPaths := Linux_ReadonlyPaths l;
                    Linux_Seccomp := Linux_Seccomp l;
                    Linux_MountLabel := Linux_MountLabel l |} |}, None)
  | _ => (s, None)
  end.

Definition demo_GetDefaultProfile (s : Spec) : option LinuxSeccomp * option error :=
  (Some {| LinuxSeccomp_DefaultAction := "SCMP_ACT_ERRNO" |}, None).

Definition demo_InitLabels (options : list string) : string * string * option error :=
  ("", "", None).

(** A device registry whose refresh fails (the manager counts its calls)
    and whose injection adds one hook per call. *)
Definition demo_Refresh (m : nat) : nat * option error :=
  (S m, Some (ext_error "registry unreadable")).

Definition demo_InjectDevices (m : nat) (s : Spec) (devs : list (option CDIDevice))
  : nat * Spec * option error :=
  (S m,
   {| Spec_Version := Spec_Version s; Spec_Process := Spec_Process s;
      Spec_Hostname := Spec_Hostname s; Spec_Mounts := Spec_Mounts s;
      Spec_Hooks := (Spec_Hooks s ++ ["cdi-hook"])%list;
      Spec_Linux := Spec_Linux s |},
   None).

(** An injection that fails on an unknown device. *)
Definition demo_InjectDevices_failing (m : nat) (s : Spec)
    (devs : list (option CDIDevice)) : nat * Spec * option error :=
  (S m, s, Some (ext_error "unresolvable CDI devices")).

Definition demo_process : Process :=
  {| Process_Args := ["/bin/sh"]; Process_Env := ["PATH=/usr/bin"];
     Process_Cwd := "/"; 
     Process_Rlimits :=
       [{| POSIXRlimit_Type := "RLIMIT_CORE"; POSIXRlimit_Hard := 0;
           POSIXRlimit_Soft := 0 |}];
     Process_ApparmorProfile := ""; Process_SelinuxLabel := "" |}.

Definition demo_spec : Spec :=
  {| Spec_Version := "1.1.0";
     Spec_Process := Some demo_process;
     Spec_Hostname := "buildkitsandbox";
     Spec_Mounts :=
       [ {| Mount_Destination := "/proc"; Mount_Type := "proc";
            Mount_Source := "proc"; Mount_Options := ["nosuid"; "noexec"; "nodev"] |};
         {| Mount_Destination := "/dev"; Mount_Type := "tmpfs";
            Mount_Source := "tmpfs"; Mount_Options := ["nosuid"] |};
         {| Mount_Destination := "/proc/sys"; Mount_Type := "bind";
            Mount_Source := "/proc/sys"; Mount_Options := ["rbind"; "ro"] |};
         {| Mount_Destination := "/process"; Mount_Type := "bind";
            Mount_Source := "/srv"; Mount_Options := ["rbind"] |} ];
     Spec_Hooks := [];
     Spec_Linux :=
       Some {| Linux_Namespaces :=
                 [ {| LinuxNamespace_Type := PIDNamespace; LinuxNamespace_Path := "" |};
                   {| LinuxNamespace_Type := MountNamespace; LinuxNamespace_Path := "" |} ];
               Linux_MaskedPaths := ["/proc/kcore"; "/sys/firmware"; "/proc/keys"];
               Linux_ReadonlyPaths := ["/proc/bus"; "/proc/sys"; "/sys/fs"];
               Linux_Seccomp := None; Linux_MountLabel := "" |} |}.

Definition demo_world : World nat :=
  {| World_manager := 0%nat; World_events := [] |}.

Definition demo_run : SpecOpts -> Spec -> World nat -> Res nat :=
  runSpecOpts hasPrefix_clean demo_runExternal demo_GetDefaultProfile
    demo_InitLabels nat demo_Refresh demo_InjectDevices.

Definition demo_apply : list SpecOpts -> Spec -> World nat -> Res nat :=
  ApplyOpts hasPrefix_clean demo_runExternal demo_GetDefaultProfile
    demo_InitLabels nat demo_Refresh demo_InjectDevices.

Definition host_without_apparmor : Host :=
  {| selinux_GetEnabled := true; cdseccomp_IsEnabled := true;
     apparmor_HostSupports := false |}.

Definition host_without_selinux : Host :=
  {| selinux_GetEnabled := false; cdseccomp_IsEnabled := false;
     apparmor_HostSupports := true |}.

Definition host_with_everything : Host :=
  {| selinux_GetEnabled := true; cdseccomp_IsEnabled := true;
     apparmor_HostSupports := true |}.

Definition demo_ulimit : Ulimit :=
  {| Ulimit_Name := "nofile"; Ulimit_Soft := 1024; Ulimit_Hard := 2048 |}.

Definition unlimited_ulimit : Ulimit :=
  {| Ulimit_Name := "memlock"; Ulimit_Soft := -1; Ulimit_Hard := -1 |}.

Example sandbox_full_host :
  generateSecurityOpts host_with_everything SecurityMode_SANDBOX "docker-default" true =
  ([withDefaultProfile; External (oci_WithApparmorProfile "docker-default");
    withSelinuxLabels true []], None).
Proof. reflexivity. Qed.

Example insecure_without_labels :
  generateSecurityOpts host_without_selinux SecurityMode_INSECURE "" false =
  ([External security_WithInsecureSpec; External oci_WithWriteableCgroupfs;
    External oci_WithWriteableSysfs; withSelinuxLabels false ["disable"]], None).
Proof. reflexivity. Qed.

Example host_pid_mode_on_demo_spec :
  exists s' : Spec,
    demo_apply (fst (generateProcessModeOpts NoProcessSandbox)) demo_spec demo_world =
      Returned None s' demo_world /\
    map Mount_Destination (Spec_Mounts s') = ["/proc"; "/dev"; "/process"] /\
    option_map Linux_MaskedPaths (Spec_Linux s') = Some ["/sys/firmware"] /\
    option_map Linux_ReadonlyPaths (Spec_Linux s') = Some ["/sys/fs"] /\
    option_map (fun l => map LinuxNamespace_Type (Linux_Namespaces l)) (Spec_Linux s') =
      Some [MountNamespace].
Proof. eexists. split; [reflexivity|]. repeat split. Qed.

Example rlimits_nil_and_valid :
  generateRlimitOpts ToUpper_ascii [None; Some demo_ulimit] =
  ([withRlimits [{| POSIXRlimit_Type := "RLIMIT_NOFILE";
                    POSIXRlimit_Hard := 2048; POSIXRlimit_Soft := 1024 |}]], None).
Proof. reflexivity. Qed.

Example rlimits_only_nil :
  generateRlimitOpts ToUpper_ascii [None] = ([withRlimits []], None).
Proof. reflexivity. Qed.

Example rlimit_unlimited :
  rlimitOf ToUpper_ascii unlimited_ulimit =
  {| POSIXRlimit_Type := "RLIMIT_MEMLOCK";
     POSIXRlimit_Hard := 18446744073709551615;
     POSIXRlimit_Soft := 18446744073709551615 |}.
Proof. reflexivity. Qed.

Example cdi_run_with_failing_refresh :
  demo_run (withCDIDevices [Some {| CDIDevice_Name := "vendor.com/gpu=0" |}])
           demo_spec demo_world =
  Returned None
    (snd (fst (demo_InjectDevices 1 demo_spec [])))
    {| World_manager := 2%nat;
       World_events :=
         [Ev_Refresh;
          Ev_Warnf "CDI registry refresh failed: %v" (ext_error "registry unreadable");
          Ev_InjectDevices [Some {| CDIDevice_Name := "vendor.com/gpu=0" |}]] |}.
Proof. reflexivity. Qed.

Example cdi_run_with_failing_injection :
  runSpecOpts hasPrefix_clean demo_runExternal demo_GetDefaultProfile
    demo_InitLabels nat demo_Refresh demo_InjectDevices_failing
    (withCDIDevices [Some {| CDIDevice_Name := "vendor.com/gpu=9" |}])
    demo_spec demo_world =
  Returned
    (Some (errors_Wrapf (ext_error "unresolvable CDI devices")
                        "CDI device injection failed"))
    demo_spec
    {| World_manager := 2%nat;
       World_events :=
         [Ev_Refresh;
          Ev_Warnf "CDI registry refresh failed: %v" (ext_error "registry unreadable");
          Ev_InjectDevices [Some {| CDIDevice_Name := "vendor.com/gpu=9" |}]] |}.
Proof. reflexivity. Qed.

Example cdi_wrapped_message :
  Error (errors_Wrapf (ext_error "unresolvable CDI devices")
                      "CDI device injection failed") =
  "CDI device injection failed: unresolvable CDI devices".
Proof. reflexivity. Qed.

(** Hosts for the capability probe. *)
Definition host_cgroup_v2 : HostFS :=
  {| HostFS_exists := fun _ => true; os_Stat := fun _ => None |}.

Definition host_cgroup_v1 : HostFS :=
  {| HostFS_exists := fun p => p =? "/proc/self/ns/cgroup";
     os_Stat := fun p => if p =? "/proc/self/ns/cgroup" then None else Some ENOENT |}.

Definition host_no_cgroupns : HostFS :=
  {| HostFS_exists := fun _ => false; os_Stat := fun _ => Some ENOENT |}.

Example probe_cgroup_v2 :
  cgroupV2NamespaceSupported host_cgroup_v2 initGlobals =
  (true, {| cgroupNSOnce := true; supportsCgroupNS := true;
            statCalls := ["/proc/self/ns/cgroup";
                          "/sys/fs/cgroup/cgroup.subtree_control"] |}).
Proof. reflexivity. Qed.

Example probe_cgroup_v1 :
  cgroupV2NamespaceSupported host_cgroup_v1 initGlobals =
  (false, {| cgroupNSOnce := true; supportsCgroupNS := false;
             statCalls := ["/proc/self/ns/cgroup";
                           "/sys/fs/cgroup/cgroup.subtree_control"] |}).
Proof. reflexivity. Qed.

Example probe_no_cgroupns_stops_early :
  cgroupV2NamespaceSupported host_no_cgroupns initGlobals =
  (false, {| cgroupNSOnce := true; supportsCgroupNS := false;
             statCalls := ["/proc/self/ns/cgroup"] |}).
Proof. reflexivity. Qed.

Example probe_is_cached_across_hosts :
  fst (laterCalls [host_cgroup_v2; host_cgroup_v1; host_cgroup_v2]
         (snd (cgroupV2NamespaceSupported host_cgroup_v1 initGlobals))) =
  [false; false; false].
Proof. reflexivity. Qed.

(** File systems for [sub]; the state counts the descriptors closed. *)
Definition demo_RootPath (fs : nat) (root path : string) : nat * (string + error) :=
  (fs, inl (root ++ "/" ++ path)).

Definition demo_OpenFile (fs : nat) (name : string) (flag : Z) : nat * (nat + error) :=
  (fs, inl (7 + fs)%nat).

(** Someone swaps the target for a symlink before every read-back. *)
Definition swapped_Readlink (fs : nat) (name : string) : nat * (string + error) :=
  (fs, inl "/etc").

(** Nobody interferes. *)
Definition quiet_Readlink (fs : nat) (name : string) : nat * (string + error) :=
  (fs, inl "/tmp/root/a/b").

Definition demo_Close (fs : nat) (fh : nat) : nat := S fs.

Definition demo_Mount (fs : nat) (mounts : list mount_Mount) : nat * (string + error) :=
  (fs, inl "/run/buildkit/mount1").

Definition demo_mount : mount_Mount :=
  {| mount_Mount_Type := "bind"; mount_Mount_Source := "/tmp/root";
     mount_Mount_Target := ""; mount_Mount_Options := ["rbind"] |}.

Example sub_quiet_first_attempt :
  sub nat demo_RootPath demo_OpenFile quiet_Readlink demo_Close demo_Mount
      demo_mount "a/b" (0%nat, []) =
  (({| mount_Mount_Type := "bind"; mount_Mount_Source := "/run/buildkit/mount1";
       mount_Mount_Target := ""; mount_Mount_Options := ["rbind"] |},
    Some (lm_Unmount
            [{| mount_Mount_Type := "bind"; mount_Mount_Source := "/proc/self/fd/7";
                mount_Mount_Target := ""; mount_Mount_Options := ["rbind"] |}]),
    None),
   (1%nat,
    [Sys_RootPath "/tmp/root" "a/b";
     Sys_OpenFile "/tmp/root/a/b" 0x280000;
     Sys_Readlink "/proc/self/fd/7";
     Sys_Mount [{| mount_Mount_Type := "bind"; mount_Mount_Source := "/proc/self/fd/7";
                   mount_Mount_Target := ""; mount_Mount_Options := ["rbind"] |}];
     Sys_Close 7])).
Proof. reflexivity. Qed.

Example sub_swapped_ten_attempts :
  let r := sub nat demo_RootPath demo_OpenFile swapped_Readlink demo_Close
               demo_Mount demo_mount "a/b" (0%nat, []) in
  fst r = (mount_Mount_zero, None,
           Some (errors_New "unable to safely resolve subpath a/b")) /\
  fst (snd r) = 10%nat /\
  filter isOpenFile (snd (snd r)) =
    map (fun _ => Sys_OpenFile "/tmp/root/a/b" 0x280000) (seq 0 10) /\
  filter isClose (snd (snd r)) = map (fun i => Sys_Close (7 + i)) (seq 0 10).
Proof. vm_compute. repeat split. Qed.

(** ** Witnesses: the theorems at concrete inputs *)


Lemma sandbox_apparmor_unsupported_fails_witness :
  exists err : error,
    generateSecurityOpts host_without_apparmor SecurityMode_SANDBOX
      "docker-default" false = ([], Some err) /\
    err = errors_New
            "AppArmor is not supported on this host, but the profile 'docker-default' was specified".
Proof.
  apply (sandbox_apparmor_unsupported_fails host_without_apparmor
           "docker-default" false).
  - discriminate.
  - reflexivity.
Defined.

Lemma process_mode_host_binds_proc_witness :
  exists (opts : list SpecOpts) (s' : Spec) (rest : list Mount) (l' : Linux),
    generateProcessModeOpts NoProcessSandbox = (opts, None) /\
    demo_apply opts demo_spec demo_world = Returned None s' demo_world /\
    Spec_Mounts s' =
      {| Mount_Destination := "/proc"; Mount_Type := "bind";
         Mount_Source := "/proc"; Mount_Options := ["rbind"] |} :: rest /\
    Forall (fun m => hasPrefix_clean (Mount_Destination m) "/proc" = false) rest /\
    Spec_Linux s' = Some l' /\
    Forall (fun p => hasPrefix_clean p "/proc" = false) (Linux_MaskedPaths l') /\
    Forall (fun p => hasPrefix_clean p "/proc" = false) (Linux_ReadonlyPaths l').
Proof.
  destruct (process_mode_host_binds_proc hasPrefix_clean demo_runExternal
              demo_GetDefaultProfile demo_InitLabels nat demo_Refresh
              demo_InjectDevices demo_spec
              (fst (demo_runExternal (oci_WithHostNamespace PIDNamespace) demo_spec))
              {| Linux_Namespaces :=
                   [ {| LinuxNamespace_Type := MountNamespace;
                        LinuxNamespace_Path := "" |} ];
                 Linux_MaskedPaths := ["/proc/kcore"; "/sys/firmware"; "/proc/keys"];
                 Linux_ReadonlyPaths := ["/proc/bus"; "/proc/sys"; "/sys/fs"];
                 Linux_Seccomp := None; Linux_MountLabel := "" |}
              demo_world eq_refl eq_refl)
    as (_ & opts & s' & rest & l' & H1 & H2 & H3 & _ & H5 & H6 & _ & H8 & _ & H10).
  exists opts, s', rest, l'. repeat split; assumption.
Defined.

Lemma insecure_selinux_unavailable_fails_witness :
  exists err : error,
    generateSecurityOpts host_without_selinux SecurityMode_INSECURE "" true =
      ([], Some err) /\
    Error err = "selinux is not available" /\
    Contains (Error err) "selinux" = true /\
    Contains (Error err) "not available" = true.
Proof.
  apply (insecure_selinux_unavailable_fails host_without_selinux "").
  reflexivity.
Defined.

Lemma cdi_injection_refreshes_first_witness :
  demo_run (withCDIDevices [Some {| CDIDevice_Name := "vendor.com/gpu=0" |}])
           demo_spec demo_world =
  Returned None
    (snd (fst (demo_InjectDevices 1 demo_spec
                 [Some {| CDIDevice_Name := "vendor.com/gpu=0" |}])))
    {| World_manager := 2%nat;
       World_events :=
         ([] ++ [Ev_Refresh]
          ++ refreshWarning (Some (ext_error "registry unreadable"))
          ++ [Ev_InjectDevices [Some {| CDIDevice_Name := "vendor.com/gpu=0" |}]])%list |}.
Proof.
  refine (proj2 (proj2 (cdi_injection_refreshes_first hasPrefix_clean
           demo_runExternal demo_GetDefaultProfile demo_InitLabels nat
           demo_Refresh demo_InjectDevices
           [Some {| CDIDevice_Name := "vendor.com/gpu=0" |}]
           demo_spec demo_world _))
           1%nat 2%nat (Some (ext_error "registry unreadable")) None _
           eq_refl eq_refl).
  discriminate.
Defined.

Lemma cgroupV2NamespaceSupported_cached_iff_both_exist_witness :
  absence_is_not_found host_cgroup_v1 "/proc/self/ns/cgroup" /\
  absence_is_not_found host_cgroup_v1 "/sys/fs/cgroup/cgroup.subtree_control" /\
  fst (cgroupV2NamespaceSupported host_cgroup_v1 initGlobals) = false /\
  fst (laterCalls [host_cgroup_v2; host_cgroup_v2]
         (snd (cgroupV2NamespaceSupported host_cgroup_v1 initGlobals))) =
    [false; false].
Proof.
  assert (A1 : absence_is_not_found host_cgroup_v1 "/proc/self/ns/cgroup")
    by (split; discriminate).
  assert (A2 : absence_is_not_found host_cgroup_v1
                 "/sys/fs/cgroup/cgroup.subtree_control")
    by (split; reflexivity).
  pose proof (cgroupV2NamespaceSupported_cached_iff_both_exist host_cgroup_v1
                [host_cgroup_v2; host_cgroup_v2] A1 A2) as H.
  split; [exact A1|]. split; [exact A2|].
  destruct (cgroupV2NamespaceSupported host_cgroup_v1 initGlobals) as [r g].
  destruct H as (_ & Hfalse & Hlater).
  assert (Hr : r = false) by (apply Hfalse; right; reflexivity).
  split; [exact Hr|]. cbn [fst snd].
  destruct (laterCalls [host_cgroup_v2; host_cgroup_v2] g) as [rs g'].
  destruct Hlater as (Hall & Hlen & _). cbn [fst].
  destruct rs as [|r1 [|r2 [|r3 rs]]]; try discriminate Hlen.
  inversion Hall as [|? ? E1 Hall']. inversion Hall' as [|? ? E2 _].
  subst. reflexivity.
Defined.

Lemma rlimits_one_entry_per_valid_ulimit_witness :
  exists r : POSIXRlimit,
    generateRlimitOpts ToUpper_ascii [None; Some demo_ulimit] =
      ([withRlimits [r]], None) /\
    generateRlimitOpts ToUpper_ascii [Some demo_ulimit; None] =
      ([withRlimits [r]], None) /\
    rlimit_for ToUpper_ascii demo_ulimit r.
Proof.
  refine (proj2 (proj2 (rlimits_one_entry_per_valid_ulimit ToUpper_ascii
                          [None; Some demo_ulimit] _)) demo_ulimit).
  discriminate.
Defined.

Lemma rlimits_replace_wholesale_witness :
  exists rlimits : list POSIXRlimit,
    generateRlimitOpts ToUpper_ascii [Some demo_ulimit] =
      ([withRlimits rlimits], None) /\
    rlimits = appendRlimits ToUpper_ascii [Some demo_ulimit] [] /\
    option_map Process_Rlimits
      (match demo_apply [withRlimits rlimits] demo_spec demo_world with
       | Returned _ s' _ => Spec_Process s'
       | Panicked _ => None
       end) = Some rlimits.
Proof.
  destruct (rlimits_replace_wholesale hasPrefix_clean demo_runExternal
              demo_GetDefaultProfile demo_InitLabels nat demo_Refresh
              demo_InjectDevices ToUpper_ascii [Some demo_ulimit]
              demo_spec demo_process demo_world)
    as (rlimits & Hgen & Hrl & Hrun & _).
  - discriminate.
  - reflexivity.
  - exists rlimits. split; [exact Hgen|]. split; [exact Hrl|].
    unfold demo_apply. rewrite Hrun. reflexivity.
Defined.

(** ** Counterexamples to the claims as first stated *)

(** C5 as stated: in unspecified mode no error whatever the SELinux flag
    and the host. With labelling requested on a host without SELinux the
    generator returns an error. *)
Lemma unspecified_mode_selinux_error :
  generateSecurityOpts host_without_selinux SecurityMode_UNSPECIFIED "" true =
    ([], Some (errors_New "selinux is not available")) /\
  generateSecurityOpts host_without_selinux SecurityMode_UNSPECIFIED "" true <>
    ([], None).
Proof.
  split; [reflexivity|discriminate].
Qed.

(** C6 as stated: in sandboxed mode the seccomp mutator is returned if and
    only if seccomp is supported, and without seccomp the generator still
    succeeds. On a host with seccomp but without AppArmor, a named profile
    makes the generator fail and return no seccomp mutator; on a host
    without seccomp and without SELinux, requested labelling makes it
    return an error. *)
Lemma sandbox_seccomp_claim_fails :
  (cdseccomp_IsEnabled host_without_apparmor = true /\
   ~ In withDefaultProfile
        (fst (generateSecurityOpts host_without_apparmor SecurityMode_SANDBOX
                "docker-default" false))) /\
  (cdseccomp_IsEnabled host_without_selinux = false /\
   snd (generateSecurityOpts host_without_selinux SecurityMode_SANDBOX "" true) =
     Some (errors_New "selinux is not available")).
Proof.
  split; split; try reflexivity. intros H. exact H.
Qed.

(** * Further properties of executor/oci/spec_linux.go *)

(** ** Mount filtering and the bound /proc *)

Section MountFilters.

Variable hasPrefix : string -> string -> bool.
Variable Manager : Type.

Lemma removeMountsWithPrefix_app (a b : list Mount) (prefixDir : string) :
  removeMountsWithPrefix hasPrefix (a ++ b)%list prefixDir =
  (removeMountsWithPrefix hasPrefix a prefixDir
   ++ removeMountsWithPrefix hasPrefix b prefixDir)%list.
Proof.
  rewrite !removeMountsWithPrefix_filter. apply filter_app.
Qed.

Lemma filter_idempotent {A : Type} (f : A -> bool) (l : list A) :
  filter f (filter f l) = filter f l.
Proof.
  induction l as [|x l IH]; simpl; [reflexivity|].
  destruct (f x) eqn:Hx; simpl; [rewrite Hx, IH|]; auto.
Qed.

Lemma filter_length_le {A : Type} (f : A -> bool) (l : list A) :
  (List.length (filter f l) <= List.length l)%nat.
Proof.
  induction l as [|x l IH]; simpl; [lia|]. destruct (f x); simpl; lia.
Qed.

Lemma pathsWithoutPrefix_idempotent (paths : list string) (prefixDir : string) :
  pathsWithoutPrefix hasPrefix (pathsWithoutPrefix hasPrefix paths prefixDir) prefixDir =
  pathsWithoutPrefix hasPrefix paths prefixDir.
Proof.
  rewrite !pathsWithoutPrefix_filter. apply filter_idempotent.
Qed.

Lemma removeMountsWithPrefix_twice (mounts : list Mount) (prefixDir : string) :
  removeMountsWithPrefix hasPrefix
    (removeMountsWithPrefix hasPrefix mounts prefixDir) prefixDir =
  removeMountsWithPrefix hasPrefix mounts prefixDir.
Proof.
  rewrite !removeMountsWithPrefix_filter. apply filter_idempotent.
Qed.

(** X1. [removeMountsWithPrefix] only removes: what it returns is never
    longer than its input and holds only mounts of the input; removing the
    same prefix again changes nothing; and the mounts of a concatenation
    are filtered part by part, so the order of the survivors is kept. *)
Theorem removeMountsWithPrefix_only_removes :
  forall (a b : list Mount) (prefixDir : string),
    (List.length (removeMountsWithPrefix hasPrefix a prefixDir) <= List.length a)%nat /\
    (forall m, In m (removeMountsWithPrefix hasPrefix a prefixDir) -> In m a) /\
    removeMountsWithPrefix hasPrefix
      (removeMountsWithPrefix hasPrefix a prefixDir) prefixDir =
      removeMountsWithPrefix hasPrefix a prefixDir /\
    removeMountsWithPrefix hasPrefix (a ++ b)%list prefixDir =
      (removeMountsWithPrefix hasPrefix a prefixDir
       ++ removeMountsWithPrefix hasPrefix b prefixDir)%list.
Proof.
  intros a b prefixDir. split.
  - rewrite removeMountsWithPrefix_filter. apply filter_length_le.
  - split.
    + intros m Hm. apply In_removeMountsWithPrefix in Hm. tauto.
    + split; [apply removeMountsWithPrefix_twice|apply removeMountsWithPrefix_app].
Qed.

(** X2. [withBoundProc] is idempotent wherever /proc counts as having the
    /proc prefix: on a spec with a Linux block, a second run returns the
    spec the first run left, and that spec has exactly one mount whose
    destination has the prefix, the bound /proc at the head. *)
Theorem withBoundProc_idempotent :
  forall (s : Spec) (l : Linux) (w : World Manager),
    hasPrefix "/proc" "/proc" = true ->
    Spec_Linux s = Some l ->
    exists s1 : Spec,
      runWithBoundProc hasPrefix Manager s w = Returned None s1 w /\
      runWithBoundProc hasPrefix Manager s1 w = Returned None s1 w /\
      filter (fun m => hasPrefix (Mount_Destination m) "/proc") (Spec_Mounts s1) =
        [procMount].
Proof.
  intros s l w Hproc HL.
  eexists. split; [apply (runWithBoundProc_eq hasPrefix Manager s l w HL)|].
  split.
  - erewrite runWithBoundProc_eq by reflexivity.
    cbn [Spec_Mounts Spec_Version Spec_Process Spec_Hostname Spec_Hooks
         removeMountsWithPrefix procMount Mount_Destination
         with_Paths Linux_MaskedPaths Linux_ReadonlyPaths Linux_Namespaces
         Linux_Seccomp Linux_MountLabel].
    rewrite Hproc. cbn [negb].
    rewrite removeMountsWithPrefix_twice, !pathsWithoutPrefix_idempotent.
    reflexivity.
  - cbn [Spec_Mounts filter procMount Mount_Destination]. rewrite Hproc.
    f_equal.
    rewrite removeMountsWithPrefix_filter.
    induction (Spec_Mounts s) as [|m ms IH]; simpl; [reflexivity|].
    destruct (hasPrefix (Mount_Destination m) "/proc") eqn:Hm; simpl;
      [exact IH|]. rewrite Hm. exact IH.
Qed.

End MountFilters.

(** ** generateMountOpts, withROBind, withCGroup *)

(** The mutators [generateMountOpts] returns. *)
Inductive MountOpts : Type :=
| withRemovedMount (destination : string)
| withROBind (src dest : string)
| withCGroup.

Definition generateMountOpts (resolvConf hostsFile : string) : list MountOpts :=
  [ withRemovedMount "/run";
    withROBind resolvConf "/etc/resolv.conf";
    withROBind hostsFile "/etc/hosts";
    withCGroup ].

Definition roBindMount (src dest : string) : Mount :=
  {| Mount_Destination := dest;
     Mount_Type := "bind";
     Mount_Source := src;
     Mount_Options := ["nosuid"; "noexec"; "nodev"; "rbind"; "ro"] |}.

Definition cgroupMount : Mount :=
  {| Mount_Destination := "/sys/fs/cgroup";
     Mount_Type := "cgroup";
     Mount_Source := "cgroup";
     Mount_Options := ["ro"; "nosuid"; "noexec"; "nodev"] |}.

Definition runWithROBind (src dest : string) (s : Spec) : Spec * option error :=
  (with_Mounts s (Spec_Mounts s ++ [roBindMount src dest])%list, None).

Definition runWithCGroup (s : Spec) : Spec * option error :=
  (with_Mounts s (Spec_Mounts s ++ [cgroupMount])%list, None).

Section MountGenerators.

(** [withRemovedMount] is declared in spec.go, outside the sources at hand. *)
Variable runWithRemovedMount : string -> Spec -> Spec * option error.

Variable hasPrefix : string -> string -> bool.
Variable Manager : Type.

Definition runMountOpts (o : MountOpts) (s : Spec) : Spec * option error :=
  match o with
  | withRemovedMount destination => runWithRemovedMount destination s
  | withROBind src dest => runWithROBind src dest s
  | withCGroup => runWithCGroup s
  end.

(** The orchestrator's loop, as [ApplyOpts], for mutators that touch the
    spec only. *)
Fixpoint ApplyMountOpts (opts : list MountOpts) (s : Spec) : Spec * option error :=
  match opts with
  | [] => (s, None)
  | o :: rest =>
      match runMountOpts o s with
      | (s', None) => ApplyMountOpts rest s'
      | stopped => stopped
      end
  end.

(** X3. Mount generators. If removing the /run mount succeeds and leaves
    the spec [s1], applying the mutators of [generateMountOpts] succeeds
    and changes [s1] only in its mounts: every mount of [s1] is kept, in
    order, and three are appended, the read-only bind of the resolv.conf
    file, the read-only bind of the hosts file and the read-only cgroup
    mount, in that order. If removing /run fails, nothing is appended and
    that error is returned. *)
Theorem generateMountOpts_appends_three :
  forall (resolvConf hostsFile : string) (s s1 : Spec) (err : option error),
    runWithRemovedMount "/run" s = (s1, err) ->
    ApplyMountOpts (generateMountOpts resolvConf hostsFile) s =
      match err with
      | Some e => (s1, Some e)
      | None =>
          ({| Spec_Version := Spec_Version s1; Spec_Process := Spec_Process s1;
              Spec_Hostname := Spec_Hostname s1;
              Spec_Mounts :=
                (Spec_Mounts s1
                 ++ [ {| Mount_Destination := "/etc/resolv.conf"; Mount_Type := "bind";
                         Mount_Source := resolvConf;
                         Mount_Options := ["nosuid"; "noexec"; "nodev"; "rbind"; "ro"] |};
                      {| Mount_Destination := "/etc/hosts"; Mount_Type := "bind";
                         Mount_Source := hostsFile;
                         Mount_Options := ["nosuid"; "noexec"; "nodev"; "rbind"; "ro"] |};
                      {| Mount_Destination := "/sys/fs/cgroup"; Mount_Type := "cgroup";
                         Mount_Source := "cgroup";
                         Mount_Options := ["ro"; "nosuid"; "noexec"; "nodev"] |} ])%list;
              Spec_Hooks := Spec_Hooks s1; Spec_Linux := Spec_Linux s1 |}, None)
      end.
Proof.
  intros resolvConf hostsFile s s1 err Hrm.
  unfold generateMountOpts. cbn [ApplyMountOpts runMountOpts]. rewrite Hrm.
  destruct err as [e|]; [reflexivity|].
  unfold runWithROBind, runWithCGroup, with_Mounts, roBindMount, cgroupMount.
  cbn [Spec_Mounts Spec_Version Spec_Process Spec_Hostname Spec_Hooks Spec_Linux].
  rewrite <- !app_assoc. reflexivity.
Qed.

(** X4. Why the process mode mutators come after the mount mutators. On a
    spec with a Linux block, a read-only bind added before [withBoundProc]
    runs is dropped by it when its destination has the /proc prefix (the
    result is that of [withBoundProc] alone), and otherwise stays the last
    mount; added after [withBoundProc], the bind is the last mount whatever
    its destination. *)
Theorem withROBind_then_withBoundProc :
  forall (src dest : string) (s : Spec) (l : Linux) (w : World Manager),
    Spec_Linux s = Some l ->
    exists s1 : Spec,
      runWithBoundProc hasPrefix Manager s w = Returned None s1 w /\
      (hasPrefix dest "/proc" = true ->
       runWithBoundProc hasPrefix Manager (fst (runWithROBind src dest s)) w =
         Returned None s1 w) /\
      (hasPrefix dest "/proc" = false ->
       runWithBoundProc hasPrefix Manager (fst (runWithROBind src dest s)) w =
         Returned None (fst (runWithROBind src dest s1)) w) /\
      Spec_Mounts (fst (runWithROBind src dest s1)) =
        (Spec_Mounts s1 ++ [roBindMount src dest])%list.
Proof.
  intros src dest s l w HL.
  eexists. split; [apply (runWithBoundProc_eq hasPrefix Manager s l w HL)|].
  assert (HL' : Spec_Linux (fst (runWithROBind src dest s)) = Some l) by exact HL.
  split; [|split].
  - intros Hp. rewrite (runWithBoundProc_eq hasPrefix Manager _ l w HL').
    cbn [fst runWithROBind with_Mounts Spec_Mounts Spec_Version Spec_Process
         Spec_Hostname Spec_Hooks Spec_Linux].
    rewrite removeMountsWithPrefix_app.
    cbn [removeMountsWithPrefix roBindMount Mount_Destination].
    rewrite Hp. cbn [negb]. rewrite app_nil_r. reflexivity.
  - intros Hp. rewrite (runWithBoundProc_eq hasPrefix Manager _ l w HL').
    cbn [fst runWithROBind with_Mounts Spec_Mounts Spec_Version Spec_Process
         Spec_Hostname Spec_Hooks Spec_Linux].
    rewrite removeMountsWithPrefix_app.
    cbn [removeMountsWithPrefix roBindMount Mount_Destination].
    rewrite Hp. cbn [negb]. reflexivity.
  - reflexivity.
Qed.

End MountGenerators.

(** ** generateIDmapOpts and specMapping *)

(** [user.IDMap] and [user.IdentityMapping] of moby/sys/user; the fields of
    an [IDMap] are 64-bit integers. *)
Record IDMap : Type := {
  IDMap_ID : Z;
  IDMap_ParentID : Z;
  IDMap_Count : Z
}.

Record IdentityMapping : Type := {
  IdentityMapping_UIDMaps : list IDMap;
  IdentityMapping_GIDMaps : list IDMap
}.

(** [specs.LinuxIDMapping]; its fields are [uint32]. *)
Record LinuxIDMapping : Type := {
  LinuxIDMapping_ContainerID : Z;
  LinuxIDMapping_HostID : Z;
  LinuxIDMapping_Size : Z
}.

(** Go's conversion [uint32(x)] of an integer: the value modulo 2^32. *)
Definition uint32 (x : Z) : Z := x mod 2 ^ 32.

(** The loop of [specMapping], [ids] being its accumulator. *)
Fixpoint appendIDMappings (s : list IDMap) (ids : list LinuxIDMapping)
  : list LinuxIDMapping :=
  match s with
  | [] => ids
  | item :: rest =>
      appendIDMappings rest
        (ids ++ [{| LinuxIDMapping_ContainerID := uint32 (IDMap_ID item);
                    LinuxIDMapping_HostID := uint32 (IDMap_ParentID item);
                    LinuxIDMapping_Size := uint32 (IDMap_Count item) |}])%list
  end.

Definition specMapping (s : list IDMap) : list LinuxIDMapping :=
  appendIDMappings s [].

(** The mutator [generateIDmapOpts] returns: containerd's
    [oci.WithUserNamespace] with the two translated lists. *)
Inductive IDmapOpts : Type :=
| oci_WithUserNamespace (uidMap gidMap : list LinuxIDMapping).

Definition generateIDmapOpts (idmap : option IdentityMapping)
  : list IDmapOpts * option error :=
  match idmap with
  | None => ([], None)
  | Some idmap =>
      ([oci_WithUserNamespace (specMapping (IdentityMapping_UIDMaps idmap))
                              (specMapping (IdentityMapping_GIDMaps idmap))], None)
  end.

(** An [IDMap] whose three fields fit [uint32]. *)
Definition fits_uint32 (item : IDMap) : Prop :=
  (0 <= IDMap_ID item < 2 ^ 32)%Z /\
  (0 <= IDMap_ParentID item < 2 ^ 32)%Z /\
  (0 <= IDMap_Count item < 2 ^ 32)%Z.

(** Reading a namespace mapping back as an [IDMap]. *)
Definition idMapOf (m : LinuxIDMapping) : IDMap :=
  {| IDMap_ID := LinuxIDMapping_ContainerID m;
     IDMap_ParentID := LinuxIDMapping_HostID m;
     IDMap_Count := LinuxIDMapping_Size m |}.

Definition translateIDMap (item : IDMap) : LinuxIDMapping :=
  {| LinuxIDMapping_ContainerID := uint32 (IDMap_ID item);
     LinuxIDMapping_HostID := uint32 (IDMap_ParentID item);
     LinuxIDMapping_Size := uint32 (IDMap_Count item) |}.

Lemma appendIDMappings_map (s : list IDMap) (ids : list LinuxIDMapping) :
  appendIDMappings s ids = (ids ++ map translateIDMap s)%list.
Proof.
  revert ids. induction s as [|item rest IH]; intros ids; simpl.
  - rewrite app_nil_r. reflexivity.
  - rewrite IH, <- app_assoc. reflexivity.
Qed.

Lemma specMapping_map (s : list IDMap) : specMapping s = map translateIDMap s.
Proof.
  unfold specMapping. rewrite appendIDMappings_map. reflexivity.
Qed.

Lemma uint32_in_range (x : Z) : (0 <= x < 2 ^ 32)%Z -> uint32 x = x.
Proof.
  intros Hx. unfold uint32. apply Z.mod_small. exact Hx.
Qed.

Lemma idMapOf_translateIDMap (item : IDMap) :
  fits_uint32 item -> idMapOf (translateIDMap item) = item.
Proof.
  intros (H1 & H2 & H3). destruct item as [i p c].
  unfold idMapOf, translateIDMap. simpl in *.
  rewrite !uint32_in_range by assumption. reflexivity.
Qed.

(** X5. [specMapping] is lossless on mappings that fit 32 bits: it yields
    one entry per mapping, in order, and when every field of every mapping
    lies in the [uint32] range, reading the entries back (container id as
    id, host id as parent id, size as count) gives the input list again. *)
Theorem specMapping_round_trip :
  forall s : list IDMap,
    Forall fits_uint32 s ->
    List.length (specMapping s) = List.length s /\
    map idMapOf (specMapping s) = s.
Proof.
  intros s Hfit. rewrite specMapping_map. split; [apply length_map|].
  induction Hfit as [|item rest Hitem _ IH]; simpl; [reflexivity|].
  rewrite idMapOf_translateIDMap by exact Hitem. rewrite IH. reflexivity.
Qed.


(** [generateIDmapOpts] returns no mutator for a nil mapping, and for a
    mapping exactly one, the user-namespace mutator, whose uid list is
    translated from the uid mappings alone and whose gid list from the gid
    mappings alone, each with as many entries as its source; it never
    returns an error. *)
Lemma generateIDmapOpts_one_mutator :
  forall idmap : option IdentityMapping,
    snd (generateIDmapOpts idmap) = None /\
    (idmap = None <-> fst (generateIDmapOpts idmap) = []) /\
    (forall m, idmap = Some m ->
       exists uidMap gidMap,
         fst (generateIDmapOpts idmap) = [oci_WithUserNamespace uidMap gidMap] /\
         uidMap = map translateIDMap (IdentityMapping_UIDMaps m) /\
         gidMap = map translateIDMap (IdentityMapping_GIDMaps m) /\
         List.length uidMap = List.length (IdentityMapping_UIDMaps m) /\
         List.length gidMap = List.length (IdentityMapping_GIDMaps m)).
Proof.
  intros [m|]; simpl.
  - split; [reflexivity|]. split; [split; discriminate|].
    intros m' Hm. inversion Hm; subst m'.
    eexists. eexists. split; [reflexivity|].
    rewrite !specMapping_map, !length_map. repeat split.
  - split; [reflexivity|]. split; [split; reflexivity|]. discriminate.
Qed.

(** ** More on generateSecurityOpts *)

(** X7. When [generateSecurityOpts] fails, and what it returns then. In
    every mode the generator returns an error exactly when SELinux
    labelling is requested on a host without SELinux or, in sandboxed mode
    only, an AppArmor profile is named on a host without AppArmor; and
    whenever it returns an error it returns no mutator with it. *)
Theorem generateSecurityOpts_failure :
  forall (h : Host) (mode : SecurityMode) (apparmorProfile : string)
         (selinuxB : bool),
    let r := generateSecurityOpts h mode apparmorProfile selinuxB in
    (snd r <> None <->
       (selinuxB = true /\ selinux_GetEnabled h = false) \/
       (mode = SecurityMode_SANDBOX /\ apparmorProfile <> "" /\
        apparmor_HostSupports h = false)) /\
    (snd r <> None -> fst r = []).
Proof.
  intros h mode profile selinuxB r. subst r.
  destruct mode.
  - rewrite generateSecurityOpts_SANDBOX.
    destruct (String.eqb_spec profile "") as [Hp|Hp];
      destruct selinuxB, (selinux_GetEnabled h), (cdseccomp_IsEnabled h),
        (apparmor_HostSupports h); cbn;
      (split; [|intros H; try reflexivity; exfalso; apply H; reflexivity]);
      intuition (first [ discriminate | congruence
                       | left; split; reflexivity
                       | right; repeat split; assumption ]).
  - unfold generateSecurityOpts.
    destruct selinuxB, (selinux_GetEnabled h); cbn;
      (split; [|intros H; try reflexivity; exfalso; apply H; reflexivity]);
      intuition (first [ discriminate | congruence | left; split; reflexivity ]).
  - unfold generateSecurityOpts.
    destruct selinuxB, (selinux_GetEnabled h); cbn;
      (split; [|intros H; try reflexivity; exfalso; apply H; reflexivity]);
      intuition (first [ discriminate | congruence | left; split; reflexivity ]).
Qed.

(** X8. Insecure mode takes nothing from the AppArmor profile nor from the
    host's seccomp and AppArmor support. When SELinux labelling is not
    requested, or the host has SELinux, the generator succeeds with four
    mutators: the insecure spec, writable cgroupfs, writable sysfs and the
    label mutator run with the disable option; neither the default seccomp
    profile nor any AppArmor profile mutator is among them. *)
Theorem insecure_mode_ignores_profiles :
  forall (h : Host) (apparmorProfile : string) (selinuxB : bool),
    selinuxB = false \/ selinux_GetEnabled h = true ->
    generateSecurityOpts h SecurityMode_INSECURE apparmorProfile selinuxB =
      ([ External security_WithInsecureSpec;
         External oci_WithWriteableCgroupfs;
         External oci_WithWriteableSysfs;
         withSelinuxLabels selinuxB ["disable"] ], None) /\
    ~ In withDefaultProfile
         (fst (generateSecurityOpts h SecurityMode_INSECURE apparmorProfile selinuxB)) /\
    (forall p, ~ In (External (oci_WithApparmorProfile p))
                    (fst (generateSecurityOpts h SecurityMode_INSECURE
                            apparmorProfile selinuxB))).
Proof.
  intros h profile selinuxB Hok.
  assert (Hguard : selinuxB && negb (selinux_GetEnabled h) = false).
  { destruct Hok as [-> | ->]; [reflexivity|]. apply andb_false_r. }
  unfold generateSecurityOpts. rewrite Hguard. split; [reflexivity|].
  split.
  - simpl. intuition discriminate.
  - intros p. simpl. intuition discriminate.
Qed.

(** X9. The shape of the sandboxed list. When [generateSecurityOpts]
    succeeds in sandboxed mode, its last mutator is the label mutator, run
    without the disable option; an AppArmor profile mutator is in the list
    exactly for the requested non-empty profile; the list has between one
    and three mutators; and the seccomp mutator, when present, is first. *)
Theorem sandbox_list_shape :
  forall (h : Host) (apparmorProfile : string) (selinuxB : bool)
         (opts : list SpecOpts),
    generateSecurityOpts h SecurityMode_SANDBOX apparmorProfile selinuxB =
      (opts, None) ->
    last opts withBoundProc = withSelinuxLabels selinuxB [] /\
    (forall p, In (External (oci_WithApparmorProfile p)) opts <->
               p = apparmorProfile /\ apparmorProfile <> "") /\
    (1 <= List.length opts <= 3)%nat /\
    (In withDefaultProfile opts -> hd withBoundProc opts = withDefaultProfile).
Proof.
  intros h profile selinuxB opts Hgen.
  rewrite generateSecurityOpts_SANDBOX in Hgen.
  destruct (selinuxB && negb (selinux_GetEnabled h)); [discriminate|].
  destruct (String.eqb_spec profile "") as [Hp|Hp];
    destruct (apparmor_HostSupports h), (cdseccomp_IsEnabled h);
    cbn in Hgen; try discriminate; inversion Hgen; subst opts; clear Hgen;
    cbn; (split; [reflexivity|]); (split; [|split; [lia|]]);
    try (intros p; split;
         [ intros H; repeat (destruct H as [H|H]; try discriminate);
           try contradiction; inversion H; subst; split; auto
         | intros [H1 H2]; subst; try contradiction; auto ]);
    try (intros H; repeat (destruct H as [H|H]; try discriminate);
         try contradiction; reflexivity);
    try reflexivity.
Qed.

(** ** More on sub *)

Section SubpathOutcomes.

Variable FS : Type.
Variable fs_RootPath : FS -> string -> string -> FS * (string + error).
Variable os_OpenFile : FS -> string -> Z -> FS * (nat + error).
Variable os_Readlink : FS -> string -> FS * (string + error).
Variable File_Close : FS -> nat -> FS.
Variable LocalMounter_Mount : FS -> list mount_Mount -> FS * (string + error).

Local Abbreviation sub_loop' :=
  (sub_loop FS fs_RootPath os_OpenFile os_Readlink File_Close LocalMounter_Mount).
Local Abbreviation sub' :=
  (sub FS fs_RootPath os_OpenFile os_Readlink File_Close LocalMounter_Mount).
Local Abbreviation raced :=
  (raced_attempt FS fs_RootPath os_OpenFile os_Readlink File_Close).

(** [k] attempts in a row that lose the race, from [fs] to [fs']. *)
Fixpoint raced_times (k : nat) (root subPath : string) (fs fs' : FS) : Prop :=
  match k with
  | O => fs' = fs
  | S k' => exists fs1, raced root subPath fs fs1 /\
                        raced_times k' root subPath fs1 fs'
  end.

(** How an attempt that is not a lost race ends. *)
Inductive last_attempt (root : string) (m : mount_Mount) (subPath : string)
    (fs : FS)
  : FS -> mount_Mount * option Release * option error -> list Syscall -> Prop :=
| RootPath_fails (fs1 : FS) (err : error) :
    fs_RootPath fs root subPath = (fs1, inr err) ->
    last_attempt root m subPath fs fs1
      (mount_Mount_zero, None, Some err)
      [Sys_RootPath root subPath]
| OpenFile_fails (src : string) (fs1 fs2 : FS) (err : error) :
    fs_RootPath fs root subPath = (fs1, inl src) ->
    os_OpenFile fs1 src (Z.lor unix_O_PATH unix_O_CLOEXEC) = (fs2, inr err) ->
    last_attempt root m subPath fs fs2
      (mount_Mount_zero, None, Some (errors_WithStack err))
      [Sys_RootPath root subPath;
       Sys_OpenFile src (Z.lor unix_O_PATH unix_O_CLOEXEC)]
| Readlink_fails (src : string) (fs1 fs2 fs3 : FS) (fh : nat) (err : error) :
    fs_RootPath fs root subPath = (fs1, inl src) ->
    os_OpenFile fs1 src (Z.lor unix_O_PATH unix_O_CLOEXEC) = (fs2, inl fh) ->
    os_Readlink fs2 ("/proc/self/fd/" ++ strconv_Itoa fh) = (fs3, inr err) ->
    last_attempt root m subPath fs (File_Close fs3 fh)
      (mount_Mount_zero, None, Some (errors_WithStack err))
      [Sys_RootPath root subPath;
       Sys_OpenFile src (Z.lor unix_O_PATH unix_O_CLOEXEC);
       Sys_Readlink ("/proc/self/fd/" ++ strconv_Itoa fh);
       Sys_Close fh]
| Mount_fails (src : string) (fs1 fs2 fs3 fs4 : FS) (fh : nat) (err : error) :
    fs_RootPath fs root subPath = (fs1, inl src) ->
    os_OpenFile fs1 src (Z.lor unix_O_PATH unix_O_CLOEXEC) = (fs2, inl fh) ->
    os_Readlink fs2 ("/proc/self/fd/" ++ strconv_Itoa fh) = (fs3, inl src) ->
    LocalMounter_Mount fs3
      [with_Source m ("/proc/self/fd/" ++ strconv_Itoa fh)] = (fs4, inr err) ->
    last_attempt root m subPath fs (File_Close fs4 fh)
      (mount_Mount_zero, None, Some err)
      [Sys_RootPath root subPath;
       Sys_OpenFile src (Z.lor unix_O_PATH unix_O_CLOEXEC);
       Sys_Readlink ("/proc/self/fd/" ++ strconv_Itoa fh);
       Sys_Mount [with_Source m ("/proc/self/fd/" ++ strconv_Itoa fh)];
       Sys_Close fh]
| Mounted (src : string) (fs1 fs2 fs3 fs4 : FS) (fh : nat) (mp : string) :
    fs_RootPath fs root subPath = (fs1, inl src) ->
    os_OpenFile fs1 src (Z.lor unix_O_PATH unix_O_CLOEXEC) = (fs2, inl fh) ->
    os_Readlink fs2 ("/proc/self/fd/" ++ strconv_Itoa fh) = (fs3, inl src) ->
    LocalMounter_Mount fs3
      [with_Source m ("/proc/self/fd/" ++ strconv_Itoa fh)] = (fs4, inl mp) ->
    last_attempt root m subPath fs (File_Close fs4 fh)
      (with_Source m mp,
       Some (lm_Unmount [with_Source m ("/proc/self/fd/" ++ strconv_Itoa fh)]),
       None)
      [Sys_RootPath root subPath;
       Sys_OpenFile src (Z.lor unix_O_PATH unix_O_CLOEXEC);
       Sys_Readlink ("/proc/self/fd/" ++ strconv_Itoa fh);
       Sys_Mount [with_Source m ("/proc/self/fd/" ++ strconv_Itoa fh)];
       Sys_Close fh].

Ltac run_calls :=
  unfold bind, RootPath, OpenFile, Readlink, Close, lm_Mount, call, ret;
  cbn [fst snd].

Lemma sub_loop_last_attempt (retries : nat) (root : string) (m : mount_Mount)
    (subPath : string) (fs fs' : FS)
    (res : mount_Mount * option Release * option error)
    (evs tr : list Syscall) :
  last_attempt root m subPath fs fs' res evs ->
  sub_loop' retries root m subPath (fs, tr) = (res, (fs', (tr ++ evs)%list)).
Proof.
  intros Hlast.
  destruct Hlast as [fs1 err HR | src fs1 fs2 err HR HO
                    | src fs1 fs2 fs3 fh err HR HO HL
                    | src fs1 fs2 fs3 fs4 fh err HR HO HL HM
                    | src fs1 fs2 fs3 fs4 fh mp HR HO HL HM];
    destruct retries as [|[|n]]; cbn [sub_loop]; run_calls;
    rewrite HR; cbn [fst snd]; try reflexivity;
    rewrite HO; cbn [fst snd]; rewrite <- ?app_assoc; try reflexivity;
    rewrite HL; cbn [fst snd]; rewrite <- ?app_assoc; try reflexivity;
    rewrite String.eqb_refl; cbn [negb fst snd]; rewrite HM; cbn [fst snd];
    rewrite <- ?app_assoc; try reflexivity;
    unfold with_Source; cbn; reflexivity.
Qed.

Lemma sub_loop_raced_times (k : nat) (root : string) (m : mount_Mount)
    (subPath : string) :
  forall (n : nat) (fs fs' : FS) (tr : list Syscall),
    raced_times k root subPath fs fs' ->
    exists evs : list Syscall,
      count isOpenFile evs = k /\ count isReadlink evs = k /\
      count isClose evs = k /\ count isMount evs = 0%nat /\
      sub_loop' (S (k + n)) root m subPath (fs, tr) =
      sub_loop' (S n) root m subPath (fs', (tr ++ evs)%list).
Proof.
  induction k as [|k IH]; intros n fs fs' tr Hr.
  - simpl in Hr. subst fs'. exists []. rewrite app_nil_r. repeat split.
  - destruct Hr as (fs1 & Hatt & Hrest).
    destruct (sub_loop_raced_step FS fs_RootPath os_OpenFile os_Readlink
                File_Close LocalMounter_Mount (S (S k + n)) root m subPath
                fs fs1 tr Hatt) as (evs & C1 & C2 & C3 & C4 & Heq).
    destruct (IH n fs1 fs' (tr ++ evs)%list Hrest)
      as (evs' & D1 & D2 & D3 & D4 & Heq').
    exists (evs ++ evs')%list.
    rewrite !count_app, C1, C2, C3, C4, D1, D2, D3, D4, app_assoc.
    repeat split. rewrite Heq. cbn [Nat.add]. exact Heq'.
Qed.

(** X10. [sub] after transient races. If the first [k] attempts, for any
    [k] up to 9, lose the race and the next attempt does not, [sub] ends
    with that attempt. When that attempt mounts, [sub] returns the mount
    with only its source replaced by the mount point, the release function
    of a mounter over the single mount through /proc/self/fd/<n>, and no
    error. When it fails, [sub] returns the zero mount and no release
    function, with the root-path or mount error as it is, or the open or
    read-back error with a stack. The calls made are those of the [k]
    lost attempts, each opening, reading back and closing one descriptor,
    followed by those of the last attempt. *)
Theorem sub_ends_with_first_unraced_attempt :
  forall (k : nat) (m : mount_Mount) (subPath : string) (fs fs1 fs' : FS)
         (res : mount_Mount * option Release * option error)
         (last tr : list Syscall),
    (k <= 9)%nat ->
    raced_times k (mount_Mount_Source m) subPath fs fs1 ->
    last_attempt (mount_Mount_Source m) m subPath fs1 fs' res last ->
    exists evs : list Syscall,
      sub' m subPath (fs, tr) = (res, (fs', (tr ++ evs ++ last)%list)) /\
      count isOpenFile evs = k /\ count isReadlink evs = k /\
      count isClose evs = k /\ count isMount evs = 0%nat.
Proof.
  intros k m subPath fs fs1 fs' res last tr Hk Hraced Hlast.
  destruct (sub_loop_raced_times k (mount_Mount_Source m) m subPath (9 - k)
              fs fs1 tr Hraced) as (evs & C1 & C2 & C3 & C4 & Heq).
  exists evs. split; [|repeat split; assumption].
  unfold sub. replace 10%nat with (S (k + (9 - k))) by lia.
  rewrite Heq.
  rewrite (sub_loop_last_attempt (S (9 - k)) (mount_Mount_Source m) m subPath
             fs1 fs' res last (tr ++ evs)%list Hlast).
  rewrite <- app_assoc. reflexivity.
Qed.

Lemma attempt_cases (root : string) (m : mount_Mount) (subPath : string) (fs : FS) :
  (exists fs1, raced root subPath fs fs1) \/
  (exists fs' res last, last_attempt root m subPath fs fs' res last).
Proof.
  destruct (fs_RootPath fs root subPath) as [fs1 [src|err]] eqn:HR.
  2: { right. do 3 eexists. apply (RootPath_fails _ _ _ _ _ _ HR). }
  destruct (os_OpenFile fs1 src (Z.lor unix_O_PATH unix_O_CLOEXEC))
    as [fs2 [fh|err]] eqn:HO.
  2: { right. do 3 eexists. apply (OpenFile_fails _ _ _ _ _ _ _ _ HR HO). }
  destruct (os_Readlink fs2 ("/proc/self/fd/" ++ strconv_Itoa fh))
    as [fs3 [resolved|err]] eqn:HL.
  2: { right. do 3 eexists. apply (Readlink_fails _ _ _ _ _ _ _ _ _ _ HR HO HL). }
  destruct (String.eqb_spec resolved src) as [Heq|Hne].
  - subst resolved.
    destruct (LocalMounter_Mount fs3
                [with_Source m ("/proc/self/fd/" ++ strconv_Itoa fh)])
      as [fs4 [mp|err]] eqn:HM; right; do 3 eexists.
    + apply (Mounted _ _ _ _ _ _ _ _ _ _ _ HR HO HL HM).
    + apply (Mount_fails _ _ _ _ _ _ _ _ _ _ _ HR HO HL HM).
  - left. exists (File_Close fs3 fh).
    exists src, fs1, fh, fs2, resolved, fs3. repeat split; assumption.
Qed.

(** Every run of the loop is some lost races followed by an attempt that
    is none, unless the whole budget is lost. *)
Lemma sub_loop_decomposition (root : string) (m : mount_Mount)
    (subPath : string) (n : nat) :
  forall fs : FS,
    (exists k fs1 fs' res last,
       (k <= n)%nat /\ raced_times k root subPath fs fs1 /\
       last_attempt root m subPath fs1 fs' res last) \/
    (exists fs', raced_times (S n) root subPath fs fs').
Proof.
  induction n as [|n IH]; intros fs;
    destruct (attempt_cases root m subPath fs)
      as [[fs1 Hr] | (fs' & res & last & Hl)].
  - right. exists fs1. exists fs1. split; [exact Hr|reflexivity].
  - left. exists 0%nat, fs, fs', res, last. repeat split; [lia|exact Hl].
  - destruct (IH fs1) as [(k & fs2 & fs' & res & last & Hk & Hrs & Hl) | [fs' Hrs]].
    + left. exists (S k), fs2, fs', res, last.
      split; [lia|]. split; [|exact Hl]. exists fs1. split; assumption.
    + right. exists fs'. exists fs1. split; assumption.
  - left. exists 0%nat, fs, fs', res, last. repeat split; [lia|exact Hl].
Qed.

Lemma sub_loop_exhausted (root : string) (m : mount_Mount) (subPath : string)
    (k : nat) :
  forall (fs fs' : FS) (tr : list Syscall),
    raced_times (S k) root subPath fs fs' ->
    exists evs : list Syscall,
      count isOpenFile evs = S k /\ count isClose evs = S k /\
      count isMount evs = 0%nat /\
      sub_loop' (S k) root m subPath (fs, tr) =
        (race_detected subPath, (fs', (tr ++ evs)%list)).
Proof.
  induction k as [|k IH]; intros fs fs' tr (fs1 & Hatt & Hrest).
  - simpl in Hrest. subst fs'.
    destruct (sub_loop_raced_step FS fs_RootPath os_OpenFile os_Readlink
                File_Close LocalMounter_Mount 1 root m subPath fs fs1 tr Hatt)
      as (evs & C1 & _ & C3 & C4 & Heq).
    exists evs. repeat split; assumption.
  - destruct (sub_loop_raced_step FS fs_RootPath os_OpenFile os_Readlink
                File_Close LocalMounter_Mount (S (S k)) root m subPath fs fs1 tr
                Hatt) as (evs & C1 & _ & C3 & C4 & Heq).
    destruct (IH fs1 fs' (tr ++ evs)%list Hrest) as (evs' & D1 & D3 & D4 & Heq').
    exists (evs ++ evs')%list.
    rewrite !count_app, C1, C3, C4, D1, D3, D4, app_assoc, Heq, Heq'.
    repeat split.
Qed.

Lemma last_attempt_counts (root : string) (m : mount_Mount) (subPath : string)
    (fs fs' : FS) (res : mount_Mount * option Release * option error)
    (last : list Syscall) :
  last_attempt root m subPath fs fs' res last ->
  (count isOpenFile last <= 1)%nat /\ (count isMount last <= 1)%nat /\
  (count isClose last <= count isOpenFile last)%nat /\
  (snd res = None ->
     (exists rel, snd (fst res) = Some rel) /\ count isMount last = 1%nat /\
     count isClose last = 1%nat /\ count isOpenFile last = 1%nat) /\
  (snd res <> None -> fst res = (mount_Mount_zero, None)).
Proof.
  intros H. destruct H; cbn; repeat split; try lia; try discriminate;
    try (intros; eexists; reflexivity); try reflexivity;
    intros H'; exfalso; apply H'; reflexivity.
Qed.

Lemma last_attempt_balance (root : string) (m : mount_Mount) (subPath : string)
    (fs fs' : FS) (res : mount_Mount * option Release * option error)
    (last : list Syscall) :
  last_attempt root m subPath fs fs' res last ->
  count isClose last = count isOpenFile last \/
  (exists (src : string) (fs0 : FS) (err : error),
     last = [Sys_RootPath root subPath;
             Sys_OpenFile src (Z.lor unix_O_PATH unix_O_CLOEXEC)] /\
     os_OpenFile fs0 src (Z.lor unix_O_PATH unix_O_CLOEXEC) = (fs', inr err) /\
     res = (mount_Mount_zero, None, Some (errors_WithStack err))).
Proof.
  intros H. destruct H as [fs1 err HR | src fs1 fs2 err HR HO | | | ];
    try (left; reflexivity).
  right. exists src, fs1, err. repeat split. exact HO.
Qed.

(** X11. What [sub] does whatever the file system does. Every call of
    [sub] returns, having only added to the log of calls: at most 10 opens
    and at most one mount. Every descriptor it opened is closed: the log
    has as many closes as opens, except when its last call is an open that
    failed, which [sub] reports with a stack, and then every earlier open
    has its close. With no error it returns a release function, after
    exactly one mount and with as many closes as opens; with an error it
    returns the zero mount and no release function. *)
Theorem sub_bounded_and_balanced :
  forall (m : mount_Mount) (subPath : string) (fs : FS) (tr : list Syscall),
    exists (res : mount_Mount * option Release * option error) (fs' : FS)
           (evs : list Syscall),
      sub' m subPath (fs, tr) = (res, (fs', (tr ++ evs)%list)) /\
      (count isOpenFile evs <= 10)%nat /\
      (count isMount evs <= 1)%nat /\
      (count isClose evs <= count isOpenFile evs <= S (count isClose evs))%nat /\
      (count isClose evs = count isOpenFile evs \/
       exists (evs0 : list Syscall) (src : string) (fs0 : FS) (err : error),
         evs = (evs0 ++ [Sys_OpenFile src (Z.lor unix_O_PATH unix_O_CLOEXEC)])%list /\
         os_OpenFile fs0 src (Z.lor unix_O_PATH unix_O_CLOEXEC) = (fs', inr err) /\
         res = (mount_Mount_zero, None, Some (errors_WithStack err)) /\
         count isClose evs0 = count isOpenFile evs0) /\
      (snd res = None ->
         (exists rel, snd (fst res) = Some rel) /\
         count isMount evs = 1%nat /\
         count isClose evs = count isOpenFile evs) /\
      (snd res <> None -> fst res = (mount_Mount_zero, None)).
Proof.
  intros m subPath fs tr.
  destruct (sub_loop_decomposition (mount_Mount_Source m) m subPath 9 fs)
    as [(k & fs1 & fs' & res & last & Hk & Hrs & Hl) | [fs' Hrs]].
  - destruct (sub_loop_raced_times k (mount_Mount_Source m) m subPath (9 - k)
                fs fs1 tr Hrs) as (evs & C1 & C2 & C3 & C4 & Heq).
    pose proof (sub_loop_last_attempt (S (9 - k)) (mount_Mount_Source m) m
                  subPath fs1 fs' res last (tr ++ evs)%list Hl) as Hend.
    destruct (last_attempt_counts _ _ _ _ _ _ _ Hl)
      as (L1 & L2 & L3 & Lok & Lerr).
    pose proof (last_attempt_balance _ _ _ _ _ _ _ Hl) as Lbal.
    exists res, fs', (evs ++ last)%list. split.
    + unfold sub. replace 10%nat with (S (k + (9 - k))) by lia.
      rewrite Heq, Hend, <- app_assoc. reflexivity.
    + split; [rewrite !count_app, C1; lia|].
      split; [rewrite !count_app, C4; lia|].
      split; [rewrite !count_app, C1, C3; lia|]. split; [|split].
      * destruct Lbal as [Lbal | (src & fs0 & err & Hlast & HO & Hres)].
        -- left. rewrite !count_app, C1, C3, Lbal. reflexivity.
        -- right.
           exists (evs ++ [Sys_RootPath (mount_Mount_Source m) subPath])%list,
                  src, fs0, err.
           split; [rewrite Hlast, <- app_assoc; reflexivity|].
           split; [exact HO|]. split; [exact Hres|].
           rewrite !count_app, C1, C3. reflexivity.
      * intros Hnone. destruct (Lok Hnone) as (Hrel & Hm & Hc & Ho).
        rewrite !count_app, C1, C3, C4.
        split; [exact Hrel|]. split; lia.
      * exact Lerr.
  - destruct (sub_loop_exhausted (mount_Mount_Source m) m subPath 9 fs fs' tr Hrs)
      as (evs & C1 & C3 & C4 & Heq).
    exists (race_detected subPath), fs', evs. split; [exact Heq|].
    rewrite C1, C3, C4. unfold race_detected. cbn [fst snd].
    split; [lia|]. split; [lia|]. split; [lia|]. split; [|split].
    + left. reflexivity.
    + discriminate.
    + reflexivity.
Qed.

End SubpathOutcomes.

(** ** More on cgroupV2NamespaceSupported *)

(** X12. The probe as the code decides it. On any host, the first call
    returns true exactly when neither existence check answers not-found: a
    check that fails otherwise (permission denied, not a directory, ...)
    counts as passed. The first path is always checked; the second is
    checked only when the first check did not answer not-found. The call
    leaves the once-flag set and the cached value equal to its result. *)
Theorem cgroupV2NamespaceSupported_decision :
  forall h : HostFS,
    let (r, g) := cgroupV2NamespaceSupported h initGlobals in
    (r = true <->
       os_Stat h "/proc/self/ns/cgroup" <> Some ENOENT /\
       os_Stat h "/sys/fs/cgroup/cgroup.subtree_control" <> Some ENOENT) /\
    statCalls g =
      (if os_IsNotExist (os_Stat h "/proc/self/ns/cgroup")
       then ["/proc/self/ns/cgroup"]
       else ["/proc/self/ns/cgroup"; "/sys/fs/cgroup/cgroup.subtree_control"]) /\
    cgroupNSOnce g = true /\
    supportsCgroupNS g = r.
Proof.
  intros h. unfold cgroupV2NamespaceSupported, Once_Do, probeCgroupNS.
  cbn [cgroupNSOnce initGlobals statted supportsCgroupNS statCalls app].
  destruct (os_Stat h "/proc/self/ns/cgroup") as [[| | | |]|];
    destruct (os_Stat h "/sys/fs/cgroup/cgroup.subtree_control") as [[| | | |]|];
    cbn; repeat split; try discriminate; try reflexivity;
    try (intros [H1 H2]; congruence); try (intros H; discriminate H).
Qed.

(** ** More on generateRlimitOpts *)

Section RlimitEdges.

Variable hasPrefix : string -> string -> bool.
Variable runExternal : ExternalOpts -> Spec -> Spec * option error.
Variable seccomp_GetDefaultProfile : Spec -> option LinuxSeccomp * option error.
Variable label_InitLabels : list string -> string * string * option error.
Variable Manager : Type.
Variable manager_Refresh : Manager -> Manager * option error.
Variable manager_InjectDevices :
  Manager -> Spec -> list (option CDIDevice) -> Manager * Spec * option error.
Variable toUpper : string -> string.

Local Abbreviation run :=
  (runSpecOpts hasPrefix runExternal seccomp_GetDefaultProfile label_InitLabels
     Manager manager_Refresh manager_InjectDevices).
Local Abbreviation apply :=
  (ApplyOpts hasPrefix runExternal seccomp_GetDefaultProfile label_InitLabels
     Manager manager_Refresh manager_InjectDevices).

Lemma validUlimits_all_nil (ulimits : list (option Ulimit)) :
  Forall (fun o => o = None) ulimits -> validUlimits ulimits = [].
Proof.
  induction 1 as [|o rest Ho _ IH]; simpl; [reflexivity|].
  subst o. exact IH.
Qed.

(** X13. A list of nil requests is not the empty list. For a non-empty
    list whose entries are all nil, [generateRlimitOpts] still returns a
    mutator, carrying no limit; run on a spec with a process block, it
    clears the resource limits that were set, where the empty list would
    have left them alone. *)
Theorem rlimits_all_nil_clears_limits :
  forall (ulimits : list (option Ulimit)) (s : Spec) (p : Process)
         (w : World Manager),
    ulimits <> [] ->
    Forall (fun o => o = None) ulimits ->
    Spec_Process s = Some p ->
    generateRlimitOpts toUpper ulimits = ([withRlimits []], None) /\
    apply (fst (generateRlimitOpts toUpper ulimits)) s w =
      Returned None (with_Process s (with_Rlimits p [])) w /\
    apply (fst (generateRlimitOpts toUpper [])) s w = Returned None s w.
Proof.
  intros ulimits s p w Hne Hnil HP.
  assert (Hgen : generateRlimitOpts toUpper ulimits = ([withRlimits []], None)).
  { unfold generateRlimitOpts. destruct ulimits as [|o rest]; [contradiction|].
    cbn [List.length Nat.eqb].
    rewrite appendRlimits_map, (validUlimits_all_nil _ Hnil). reflexivity. }
  split; [exact Hgen|]. rewrite Hgen. split; [|reflexivity].
  cbn [fst ApplyOpts runSpecOpts]. unfold runWithRlimits. rewrite HP. reflexivity.
Qed.

(** X14. Negative limits wrap. A request whose hard and soft limits are
    negative 64-bit integers, such as the -1 that stands for unlimited,
    yields an entry whose values are those limits plus 2^64, hence at least
    2^63: -1 becomes the largest unsigned 64-bit value. *)
Theorem rlimit_negative_wraps :
  forall u : Ulimit,
    (- 2 ^ 63 <= Ulimit_Hard u < 0)%Z ->
    (- 2 ^ 63 <= Ulimit_Soft u < 0)%Z ->
    POSIXRlimit_Hard (rlimitOf toUpper u) = (Ulimit_Hard u + 2 ^ 64)%Z /\
    POSIXRlimit_Soft (rlimitOf toUpper u) = (Ulimit_Soft u + 2 ^ 64)%Z /\
    (2 ^ 63 <= POSIXRlimit_Hard (rlimitOf toUpper u) < 2 ^ 64)%Z /\
    (2 ^ 63 <= POSIXRlimit_Soft (rlimitOf toUpper u) < 2 ^ 64)%Z /\
    (Ulimit_Hard u = (-1)%Z ->
     POSIXRlimit_Hard (rlimitOf toUpper u) = 18446744073709551615%Z).
Proof.
  intros u Hh Hs.
  assert (Hwrap : forall x, (- 2 ^ 63 <= x < 0)%Z -> uint64 x = (x + 2 ^ 64)%Z).
  { intros x Hx. unfold uint64.
    rewrite <- (Z.mod_add x 1 (2 ^ 64)) by lia.
    rewrite Z.mul_1_l. apply Z.mod_small. lia. }
  unfold rlimitOf. cbn [POSIXRlimit_Hard POSIXRlimit_Soft].
  rewrite (Hwrap _ Hh), (Hwrap _ Hs).
  repeat split; lia.
Qed.

(** X15. The security mutators of this file keep to their fields. Whatever
    the seccomp and label collaborators return, a run of the default
    seccomp profile mutator or of the label mutator that does not panic
    leaves the world, the mounts, the hooks, the host name and the version
    as they were, as well as the process's arguments, environment, working
    directory, resource limits and AppArmor profile, and the namespaces,
    masked paths and read-only paths. The seccomp mutator returns exactly
    on the specs with a Linux block, the label mutator with labelling
    requested exactly on those with a process and a Linux block. With
    labelling not requested, the label mutator returns on every spec, even
    one without a process or Linux block, with the spec untouched and a
    nil error. *)
Theorem security_mutators_frame :
  forall (o : SpecOpts) (s : Spec) (w : World Manager),
    o = withDefaultProfile \/ (exists b options, o = withSelinuxLabels b options) ->
    (forall options, o = withSelinuxLabels false options ->
       run o s w = Returned None s w) /\
    (o = withDefaultProfile ->
       ((exists err s' w', run o s w = Returned err s' w') <-> Spec_Linux s <> None)) /\
    (forall options, o = withSelinuxLabels true options ->
       ((exists err s' w', run o s w = Returned err s' w') <->
        Spec_Process s <> None /\ Spec_Linux s <> None)) /\
    forall (s' : Spec) (w' : World Manager) (err : option error),
      run o s w = Returned err s' w' ->
      w' = w /\
      Spec_Mounts s' = Spec_Mounts s /\ Spec_Hooks s' = Spec_Hooks s /\
      Spec_Hostname s' = Spec_Hostname s /\ Spec_Version s' = Spec_Version s /\
      option_map Process_Args (Spec_Process s') =
        option_map Process_Args (Spec_Process s) /\
      option_map Process_Env (Spec_Process s') =
        option_map Process_Env (Spec_Process s) /\
      option_map Process_Cwd (Spec_Process s') =
        option_map Process_Cwd (Spec_Process s) /\
      option_map Process_Rlimits (Spec_Process s') =
        option_map Process_Rlimits (Spec_Process s) /\
      option_map Process_ApparmorProfile (Spec_Process s') =
        option_map Process_ApparmorProfile (Spec_Process s) /\
      option_map Linux_Namespaces (Spec_Linux s') =
        option_map Linux_Namespaces (Spec_Linux s) /\
      option_map Linux_MaskedPaths (Spec_Linux s') =
        option_map Linux_MaskedPaths (Spec_Linux s) /\
      option_map Linux_ReadonlyPaths (Spec_Linux s') =
        option_map Linux_ReadonlyPaths (Spec_Linux s) /\
      (forall options, o = withSelinuxLabels false options -> s' = s /\ err = None).
Proof.
  intros o s w Ho. split; [|split; [|split]].
  - intros options ->. reflexivity.
  - intros ->. cbn [runSpecOpts]. unfold runWithDefaultProfile.
    destruct (seccomp_GetDefaultProfile s) as [profile e].
    destruct (Spec_Linux s) as [l|]; split.
    + discriminate.
    + intros _. do 3 eexists. reflexivity.
    + intros (err & s' & w' & H). discriminate H.
    + intros H. exfalso. apply H. reflexivity.
  - intros options ->. cbn [runSpecOpts]. unfold runWithSelinuxLabels.
    destruct (label_InitLabels options) as [[pl ml] e].
    destruct (Spec_Process s) as [p|], (Spec_Linux s) as [l|]; split;
      try (intros _; split; discriminate);
      try (intros _; do 3 eexists; reflexivity);
      try (intros (err & s' & w' & H); discriminate H);
      intros [H1 H2]; exfalso; first [apply H1; reflexivity | apply H2; reflexivity].
  - intros s' w' err Hrun.
    destruct Ho as [-> | (b & options & ->)]; cbn [runSpecOpts] in Hrun.
    + unfold runWithDefaultProfile in Hrun.
      destruct (seccomp_GetDefaultProfile s) as [profile e].
      destruct (Spec_Linux s) as [l|] eqn:HL; [|discriminate].
      inversion Hrun; subst. cbn. rewrite ?HL. cbn.
      repeat split; try reflexivity; congruence.
    + unfold runWithSelinuxLabels in Hrun. destruct b.
      * destruct (label_InitLabels options) as [[pl ml] e].
        destruct (Spec_Process s) as [p|] eqn:HP; [|discriminate].
        destruct (Spec_Linux s) as [l|] eqn:HL; [|discriminate].
        inversion Hrun; subst. cbn. rewrite ?HP, ?HL. cbn.
        repeat split; try reflexivity; congruence.
      * inversion Hrun; subst. repeat split; reflexivity.
Qed.

End RlimitEdges.

(** * solver/llbsolver/ops/build.go: BuildOp.Exec *)

(** [fmt.Sprintf(format, arg)] for a format whose only verb is [%] followed
    by the given letter ([%s], [%v], [%T]), the argument being already
    rendered as that verb prints it. *)
Fixpoint Sprintf1 (verb : ascii) (format arg : string) : string :=
  match format with
  | String "%" (String c rest) =>
      if Ascii.eqb c verb then arg ++ rest
      else String "%" (String c (Sprintf1 verb rest arg))
  | String c rest => String c (Sprintf1 verb rest arg)
  | EmptyString => EmptyString
  end.

(** [%v] of an [int]: its decimal writing. *)
Definition Itoa (i : Z) : string :=
  if (i <? 0)%Z then "-" ++ strconv_Itoa (Z.to_nat (- i))
  else strconv_Itoa (Z.to_nat i).

(** [pb.BuildInput] and the fields of [pb.BuildOp] that [Exec] reads; the
    two maps are read by key only. A map of pointers may hold nil. *)
Record BuildInput : Type := { BuildInput_Input : Z }.

Record pb_BuildOp : Type := {
  BuildOp_Builder : Z;
  BuildOp_Inputs : string -> option (option BuildInput);
  BuildOp_Attrs : string -> option string
}.

(** The calls [Exec] makes on its collaborators; mounting and opening are
    logged with their success. *)
Inductive BuildEvent : Type :=
| Bev_RefMount (ok : bool)
| Bev_lmMount (ok : bool)
| Bev_lmUnmount
| Bev_RootPath (root path : string)
| Bev_Open (name : string) (ok : bool)
| Bev_ReadFrom
| Bev_Close
| Bev_NextSession
| Bev_Solve
| Bev_EachRef
| Bev_Result.

Definition isMounted (e : BuildEvent) : bool :=
  match e with Bev_lmMount true => true | _ => false end.
Definition isUnmount (e : BuildEvent) : bool :=
  match e with Bev_lmUnmount => true | _ => false end.
Definition isOpened (e : BuildEvent) : bool :=
  match e with Bev_Open _ true => true | _ => false end.
Definition isFileClose (e : BuildEvent) : bool :=
  match e with Bev_Close => true | _ => false end.
Definition isSolve (e : BuildEvent) : bool :=
  match e with Bev_Solve => true | _ => false end.

Definition countEvents (f : BuildEvent -> bool) (evs : list BuildEvent) : nat :=
  List.length (filter f evs).

Definition isOk {A B : Type} (r : A + B) : bool :=
  match r with inl _ => true | inr _ => false end.

Section BuildOpExec.

(** Constants of solver/pb, declared outside the sources at hand. *)
Variable pb_LLBBuilder : Z.
Variable pb_LLBDefinitionInput : string.
Variable pb_LLBDefaultDefinitionFile : string.
Variable pb_AttrLLBDefinitionFilename : string.

(** The collaborators' values: solver results, worker references, cache
    references, mountables, open files, LLB definitions, frontend results
    and their result proxies. *)
Variables Result ImmutableRef Mountable File llb_Definition PBDefinition
          FrontendResult ResultProxy : Type.

(** What [Sys()] returns: a worker reference (a pointer, maybe nil, to a
    struct whose cache reference may be nil), or a value of another type,
    of which [%T] prints the name. *)
Inductive SysValue : Type :=
| Sys_WorkerRef (ref : option (option ImmutableRef))
| Sys_other (goType : string).

Variable Result_Sys : Result -> SysValue.

(** The world the collaborators act on. *)
Variable W : Type.
Variable ImmutableRef_Mount : W -> ImmutableRef -> W * (Mountable + error).
Variable LocalMounter_Mount : W -> Mountable -> W * (string + error).
Variable LocalMounter_Unmount : W -> Mountable -> W.
Variable fs_RootPath : W -> string -> string -> W * (string + error).
Variable os_Open : W -> string -> W * (File + error).
Variable llb_ReadFrom : W -> File -> W * (llb_Definition + error).
Variable File_Close : W -> File -> W.
Variable Definition_ToPB : llb_Definition -> PBDefinition.
Variable NextSession : W -> W * string.
Variable Bridge_Solve : W -> PBDefinition -> string -> W * (option FrontendResult + error).
Variable FrontendResult_Ref : FrontendResult -> option ResultProxy.
Variable ResultProxy_eqb : option ResultProxy -> option ResultProxy -> bool.
Variable FrontendResult_EachRef :
  W -> FrontendResult -> (ResultProxy -> W -> W * option error) -> W * option error.
Variable ResultProxy_Release : W -> ResultProxy -> W * option error.
Variable ResultProxy_Result : W -> ResultProxy -> W * (Result + error).

(** What [Exec] comes to: its two results, or a panic. *)
Inductive ExecResult : Type :=
| Exec_returned (outputs : list Result) (retErr : option error)
| Exec_panicked (why : string).

Definition BuildState : Type := W * list BuildEvent.

Definition Op (A : Type) : Type := BuildState -> A * BuildState.

Definition op_ret {A : Type} (a : A) : Op A := fun st => (a, st).

Definition op_bind {A B : Type} (c : Op A) (k : A -> Op B) : Op B :=
  fun st => let (a, st') := c st in k a st'.

Notation "x <~ c ;; k" := (op_bind c (fun x => k))
  (at level 61, c at next level, right associativity).

(** A call whose event does not depend on the outcome. *)
Definition op_call {A : Type} (ev : BuildEvent) (f : W -> W * A) : Op A :=
  fun st => let (w', a) := f (fst st) in (a, (w', (snd st ++ [ev])%list)).

(** A call logged with its success. *)
Definition op_try {A : Type} (ev : bool -> BuildEvent) (f : W -> W * (A + error))
  : Op (A + error) :=
  fun st => let (w', r) := f (fst st) in (r, (w', (snd st ++ [ev (isOk r)])%list)).

Definition lm_Unmount_call (m : Mountable) : Op unit :=
  op_call Bev_lmUnmount (fun w => (LocalMounter_Unmount w m, tt)).

Definition f_Close (f : File) : Op unit :=
  op_call Bev_Close (fun w => (File_Close w f, tt)).

(** The callback [Exec] hands to [EachRef]: every proxy but the result's
    own is released. *)
Definition releaseOthers (newRes : FrontendResult) (ref : ResultProxy) (w : W)
  : W * option error :=
  if ResultProxy_eqb (Some ref) (FrontendResult_Ref newRes) then (w, None)
  else ResultProxy_Release w ref.

(** [Exec] from the [defer] on: the result and the value [lm] has at the
    return ([None] once it is set to nil). *)
Definition Exec_mounted (op : pb_BuildOp) (lm : Mountable) (root : string)
  : Op (ExecResult * option Mountable) :=
  let fn := match BuildOp_Attrs op pb_AttrLLBDefinitionFilename with
            | Some override => override
            | None => pb_LLBDefaultDefinitionFile
            end in
  r <~ op_call (Bev_RootPath root fn) (fun w => fs_RootPath w root fn) ;;
  match r with
  | inr err =>
      op_ret (Exec_returned []
                (Some (errors_Wrapf err
                         (Sprintf1 "s" "working dir %s points to invalid target" fn))),
              Some lm)
  | inl newfn =>
      r <~ op_try (Bev_Open newfn) (fun w => os_Open w newfn) ;;
      match r with
      | inr err =>
          op_ret (Exec_returned []
                    (Some (errors_Wrapf err (Sprintf1 "s" "failed to open %s" newfn))),
                  Some lm)
      | inl f =>
          r <~ op_call Bev_ReadFrom (fun w => llb_ReadFrom w f) ;;
          match r with
          | inr err =>
              _ <~ f_Close f ;;
              op_ret (Exec_returned [] (Some err), Some lm)
          | inl def =>
              _ <~ f_Close f ;;
              _ <~ lm_Unmount_call lm ;;
              let lm : option Mountable := None in
              let pbDef := Definition_ToPB def in
              session <~ op_call Bev_NextSession NextSession ;;
              r <~ op_call Bev_Solve (fun w => Bridge_Solve w pbDef session) ;;
              match r with
              | inr err => op_ret (Exec_returned [] (Some err), lm)
              | inl None =>
                  op_ret (Exec_panicked "nil pointer dereference: newRes", lm)
              | inl (Some newRes) =>
                  _ <~ op_call Bev_EachRef
                         (fun w => FrontendResult_EachRef w newRes
                                     (releaseOthers newRes)) ;;
                  match FrontendResult_Ref newRes with
                  | None =>
                      op_ret (Exec_panicked "nil pointer dereference: newRes.Ref", lm)
                  | Some ref =>
                      r <~ op_call Bev_Result (fun w => ResultProxy_Result w ref) ;;
                      match r with
                      | inr err => op_ret (Exec_returned [] (Some err), lm)
                      | inl res => op_ret (Exec_returned [res] None, lm)
                      end
                  end
              end
          end
      end
  end.

(** The deferred function: it unmounts when [Exec] returns an error while
    [lm] is still set. A panic leaves [retErr] nil. *)
Definition Exec_deferred (out : ExecResult) (lm : option Mountable) : Op unit :=
  match out, lm with
  | Exec_returned _ (Some _), Some m => lm_Unmount_call m
  | _, _ => op_ret tt
  end.

Definition Exec (op : pb_BuildOp) (inputs : list (option Result)) : Op ExecResult :=
  if negb (BuildOp_Builder op =? pb_LLBBuilder)%Z then
    op_ret (Exec_returned []
              (Some (errors_New "only LLB builder is currently allowed")))
  else
    match BuildOp_Inputs op pb_LLBDefinitionInput with
    | None =>
        op_ret (Exec_returned []
                  (Some (errors_New (Sprintf1 "s" "no llb definition input %s found"
                                       pb_LLBDefinitionInput))))
    | Some None => op_ret (Exec_panicked "nil pointer dereference: llbDef")
    | Some (Some llbDef) =>
        let i := BuildInput_Input llbDef in
        if (i >=? Z.of_nat (List.length inputs))%Z then
          op_ret (Exec_returned []
                    (Some (errors_New (Sprintf1 "v" "invalid index %v" (Itoa i)))))
        else if (i <? 0)%Z then
          op_ret (Exec_panicked "index out of range")
        else
          match nth_error inputs (Z.to_nat i) with
          | None => op_ret (Exec_panicked "index out of range")
          | Some None => op_ret (Exec_panicked "nil pointer dereference: inp")
          | Some (Some inp) =>
              match Result_Sys inp with
              | Sys_other goType =>
                  op_ret (Exec_returned []
                            (Some (errors_New
                                     (Sprintf1 "T" "invalid reference for build %T"
                                        goType))))
              | Sys_WorkerRef None =>
                  op_ret (Exec_panicked "nil pointer dereference: ref")
              | Sys_WorkerRef (Some None) =>
                  op_ret (Exec_panicked "nil pointer dereference: ref.ImmutableRef")
              | Sys_WorkerRef (Some (Some iref)) =>
                  r <~ op_try Bev_RefMount (fun w => ImmutableRef_Mount w iref) ;;
                  match r with
                  | inr err => op_ret (Exec_returned [] (Some err))
                  | inl mount =>
                      let lm := mount in
                      r <~ op_try Bev_lmMount (fun w => LocalMounter_Mount w lm) ;;
                      match r with
                      | inr err => op_ret (Exec_returned [] (Some err))
                      | inl root =>
                          body <~ Exec_mounted op lm root ;;
                          _ <~ Exec_deferred (fst body) (snd body) ;;
                          op_ret (fst body)
                      end
                  end
              end
          end
    end.

(** *** Facts about [Exec] *)

(** The events up to the nested solve. *)
Fixpoint beforeSolve (evs : list BuildEvent) : list BuildEvent :=
  match evs with
  | [] => []
  | Bev_Solve :: _ => []
  | e :: rest => e :: beforeSolve rest
  end.

Lemma Sprintf1_no_input (name : string) :
  Sprintf1 "s" "no llb definition input %s found" name =
  "no llb definition input " ++ name ++ " found".
Proof. reflexivity. Qed.

Lemma Sprintf1_invalid_index (i : string) :
  Sprintf1 "v" "invalid index %v" i = "invalid index " ++ i.
Proof. simpl. rewrite string_app_nil_r. reflexivity. Qed.

Lemma Sprintf1_invalid_reference (goType : string) :
  Sprintf1 "T" "invalid reference for build %T" goType =
  "invalid reference for build " ++ goType.
Proof. simpl. rewrite string_app_nil_r. reflexivity. Qed.

(** X16. [Exec] checks its operation before it touches anything. A
    builder other than the LLB builder, a missing definition input, an
    input index at or past the number of inputs, and an input that is no
    worker reference are each answered with the error made for it and no
    output, the world and the log of calls being left as they were. Only
    the upper bound of the index is checked: a negative index panics. *)
Theorem Exec_validates_before_any_call :
  forall (op : pb_BuildOp) (inputs : list (option Result)) (st : BuildState),
    (BuildOp_Builder op <> pb_LLBBuilder ->
     Exec op inputs st =
       (Exec_returned []
          (Some (errors_New "only LLB builder is currently allowed")), st)) /\
    (BuildOp_Builder op = pb_LLBBuilder ->
     BuildOp_Inputs op pb_LLBDefinitionInput = None ->
     Exec op inputs st =
       (Exec_returned []
          (Some (errors_New ("no llb definition input " ++ pb_LLBDefinitionInput
                             ++ " found"))), st)) /\
    (forall llbDef : BuildInput,
       BuildOp_Builder op = pb_LLBBuilder ->
       BuildOp_Inputs op pb_LLBDefinitionInput = Some (Some llbDef) ->
       (Z.of_nat (List.length inputs) <= BuildInput_Input llbDef ->
        Exec op inputs st =
          (Exec_returned []
             (Some (errors_New ("invalid index " ++ Itoa (BuildInput_Input llbDef)))),
           st)) /\
       (BuildInput_Input llbDef < 0 ->
        exists why, Exec op inputs st = (Exec_panicked why, st)) /\
       (forall (inp : Result) (goType : string),
          0 <= BuildInput_Input llbDef ->
          nth_error inputs (Z.to_nat (BuildInput_Input llbDef)) = Some (Some inp) ->
          Result_Sys inp = Sys_other goType ->
          Exec op inputs st =
            (Exec_returned []
               (Some (errors_New ("invalid reference for build " ++ goType))), st)))%Z.
Proof.
  intros op inputs st. split; [|split].
  - intros Hb. unfold Exec. apply Z.eqb_neq in Hb. rewrite Hb. reflexivity.
  - intros Hb Hin. unfold Exec. apply Z.eqb_eq in Hb. rewrite Hb, Hin.
    rewrite Sprintf1_no_input. reflexivity.
  - intros llbDef Hb Hin. apply Z.eqb_eq in Hb. split; [|split].
    + intros Hi. unfold Exec. rewrite Hb, Hin. cbn [negb].
      replace (BuildInput_Input llbDef >=? Z.of_nat (List.length inputs))%Z
        with true by (symmetry; apply Z.geb_le; exact Hi).
      rewrite Sprintf1_invalid_index. reflexivity.
    + intros Hi. unfold Exec. rewrite Hb, Hin. cbn [negb].
      replace (BuildInput_Input llbDef >=? Z.of_nat (List.length inputs))%Z
        with false by (symmetry; rewrite Z.geb_leb; apply Z.leb_gt; lia).
      replace (BuildInput_Input llbDef <? 0)%Z with true
        by (symmetry; apply Z.ltb_lt; exact Hi).
      eexists. reflexivity.
    + intros inp goType Hi Hnth Hsys. unfold Exec. rewrite Hb, Hin. cbn [negb].
      assert (Hlt : (Z.to_nat (BuildInput_Input llbDef) < List.length inputs)%nat).
      { apply nth_error_Some. rewrite Hnth. discriminate. }
      replace (BuildInput_Input llbDef >=? Z.of_nat (List.length inputs))%Z
        with false by (symmetry; rewrite Z.geb_leb; apply Z.leb_gt; lia).
      replace (BuildInput_Input llbDef <? 0)%Z with false
        by (symmetry; apply Z.ltb_ge; exact Hi).
      rewrite Hnth, Hsys, Sprintf1_invalid_reference. reflexivity.
Qed.

Ltac exec_case :=
  match goal with
  | |- context [match ?x with _ => _ end] =>
      lazymatch x with
      | context [match _ with _ => _ end] => fail
      | _ => destruct x eqn:?
      end
  end; cbn [fst snd isOk negb].

Ltac exec_done :=
  do 2 eexists;
  first [ exists []; split; [rewrite app_nil_r; reflexivity|]
        | eexists; split; [rewrite <- ?app_assoc; cbn [app]; reflexivity|] ];
  cbn;
  (split; [|split; [|split; [|split; [|split; [|split]]]]]);
  [ reflexivity | lia | reflexivity | lia | lia
  | intros Hsolve; first [ discriminate Hsolve | split; reflexivity ]
  | intros ? ? Hout;
    first [ discriminate Hout
          | inversion Hout; subst; split;
            [ intros Hnil; first [ discriminate Hnil | eexists; reflexivity ]
            | intros Herr;
              first [ reflexivity | exfalso; apply Herr; reflexivity ] ] ] ].

(** X17. [Exec] releases what it acquires, whatever its collaborators do.
    Every run, be it a return or a panic, only adds to the log of calls,
    and in what it adds: the local mount is unmounted exactly once if it
    succeeded and never otherwise; the definition file is closed exactly
    once if its opening succeeded; and when the nested solve is called, the
    unmount and the close have both happened before it. A return carries
    one output when its error is nil and none otherwise. *)
Theorem Exec_releases_what_it_acquires :
  forall (op : pb_BuildOp) (inputs : list (option Result)) (w : W)
         (tr : list BuildEvent),
    exists (out : ExecResult) (w' : W) (evs : list BuildEvent),
      Exec op inputs (w, tr) = (out, (w', (tr ++ evs)%list)) /\
      countEvents isUnmount evs = countEvents isMounted evs /\
      (countEvents isMounted evs <= 1)%nat /\
      countEvents isFileClose evs = countEvents isOpened evs /\
      (countEvents isOpened evs <= 1)%nat /\
      (countEvents isSolve evs <= 1)%nat /\
      (countEvents isSolve evs = 1%nat ->
       countEvents isUnmount (beforeSolve evs) = 1%nat /\
       countEvents isFileClose (beforeSolve evs) = 1%nat) /\
      (forall outs err, out = Exec_returned outs err ->
         (err = None -> exists r, outs = [r]) /\
         (err <> None -> outs = [])).
Proof.
  intros op inputs w tr.
  unfold Exec, Exec_mounted, Exec_deferred, lm_Unmount_call, f_Close.
  unfold op_bind, op_try, op_call, op_ret.
  cbn [fst snd].
  repeat exec_case; exec_done.
Qed.

Ltac exec_named :=
  do 2 eexists;
  first [ exists []; split; [rewrite app_nil_r; reflexivity|]
        | eexists; split; [rewrite <- ?app_assoc; cbn [app]; reflexivity|] ];
  intros root path Hin; cbn [In] in Hin;
  repeat match goal with
         | H : _ \/ _ |- _ => destruct H as [H|H]
         end;
  first [ contradiction | discriminate
        | match goal with H : Bev_RootPath _ _ = Bev_RootPath _ _ |- _ =>
            inversion H; subst; try reflexivity; congruence
          end ].

(** X18. Which definition file [Exec] reads. On every run, the only path
    ever resolved against the mounted root is the file name given by the
    operation's file-name attribute when it has one, and the default
    definition file name otherwise. *)
Theorem Exec_definition_file_name :
  forall (op : pb_BuildOp) (inputs : list (option Result)) (w : W)
         (tr : list BuildEvent),
    exists (out : ExecResult) (w' : W) (evs : list BuildEvent),
      Exec op inputs (w, tr) = (out, (w', (tr ++ evs)%list)) /\
      forall root path,
        In (Bev_RootPath root path) evs ->
        path = match BuildOp_Attrs op pb_AttrLLBDefinitionFilename with
               | Some override => override
               | None => pb_LLBDefaultDefinitionFile
               end.
Proof.
  intros op inputs w tr.
  unfold Exec, Exec_mounted, Exec_deferred, lm_Unmount_call, f_Close.
  unfold op_bind, op_try, op_call, op_ret.
  cbn [fst snd].
  repeat exec_case; exec_named.
Qed.

End BuildOpExec.

(** ** More concrete runs *)

(** Removing the mounts at a destination, for the runs below. *)
Definition demo_RemovedMount (destination : string) (s : Spec) : Spec * option error :=
  (with_Mounts s
     (filter (fun m => negb (Mount_Destination m =? destination)) (Spec_Mounts s)),
   None).

Example mount_opts_on_demo_spec :
  map Mount_Destination
    (Spec_Mounts
       (fst (ApplyMountOpts demo_RemovedMount
               (generateMountOpts "/run/resolv.conf" "/run/hosts") demo_spec))) =
  ["/proc"; "/dev"; "/proc/sys"; "/process";
   "/etc/resolv.conf"; "/etc/hosts"; "/sys/fs/cgroup"].
Proof. reflexivity. Qed.

Example specMapping_rootless :
  specMapping [{| IDMap_ID := 0; IDMap_ParentID := 100000; IDMap_Count := 65536 |}] =
  [{| LinuxIDMapping_ContainerID := 0; LinuxIDMapping_HostID := 100000;
      LinuxIDMapping_Size := 65536 |}].
Proof. reflexivity. Qed.

(** A file system on which the first two attempts of [sub] lose the race. *)
Definition settling_Readlink (fs : nat) (name : string) : nat * (string + error) :=
  (fs, inl (if (fs <? 2)%nat then "/etc" else "/tmp/root/a/b")).

Example sub_settles_on_third_attempt :
  let r := sub nat demo_RootPath demo_OpenFile settling_Readlink demo_Close
               demo_Mount demo_mount "a/b" (0%nat, []) in
  fst r = (with_Source demo_mount "/run/buildkit/mount1",
           Some (lm_Unmount [with_Source demo_mount "/proc/self/fd/9"]), None) /\
  count isOpenFile (snd (snd r)) = 3%nat /\
  count isClose (snd (snd r)) = 3%nat /\
  count isMount (snd (snd r)) = 1%nat.
Proof. vm_compute. repeat split. Qed.

(** A build operation and collaborators for [Exec]: the world counts the
    calls made; the definition file is missing when the world starts odd. *)
Definition demo_BuildOp : pb_BuildOp :=
  {| BuildOp_Builder := -1;
     BuildOp_Inputs := fun k => if k =? "buildkit.llb.definition"
                                then Some (Some {| BuildInput_Input := 0 |})
                                else None;
     BuildOp_Attrs := fun k => if k =? "llbbuild.filename"
                               then Some "build.llb" else None |}.

Definition demo_Exec (inputs : list (option nat)) (w : nat)
  : ExecResult nat * (nat * list BuildEvent) :=
  Exec (-1) "buildkit.llb.definition" "buildkit.llb.definition" "llbbuild.filename"
    nat nat nat nat nat nat nat nat
    (fun r => if (r =? 0)%nat then Sys_other nat "*solver.fakeResult"
              else Sys_WorkerRef nat (Some (Some r)))
    nat
    (fun w iref => (S w, inl iref))
    (fun w m => (S w, inl "/run/buildkit/mount7"))
    (fun w m => S w)
    (fun w root path => (S w, inl (root ++ "/" ++ path)))
    (fun w name => if Nat.odd w then (S w, inl 3%nat)
                   else (S w, inr (ext_error "no such file or directory")))
    (fun w f => (S w, inl 11%nat))
    (fun w f => S w)
    (fun def => def)
    (fun w => (S w, "session1"))
    (fun w pbDef session => (S w, inl (Some pbDef)))
    (fun res => Some res)
    (fun a b => match a, b with
                | Some x, Some y => (x =? y)%nat
                | None, None => true
                | _, _ => false
                end)
    (fun w res fn => fn res w)
    (fun w ref => (S w, None))
    (fun w ref => (S w, inl (ref + 1)%nat))
    demo_BuildOp inputs (w, []).

Example Exec_solves_definition :
  demo_Exec [Some 5%nat] 0 =
  (Exec_returned nat [12%nat] None,
   (10%nat,
    [Bev_RefMount true; Bev_lmMount true;
     Bev_RootPath "/run/buildkit/mount7" "build.llb";
     Bev_Open "/run/buildkit/mount7/build.llb" true;
     Bev_ReadFrom; Bev_Close; Bev_lmUnmount; Bev_NextSession; Bev_Solve;
     Bev_EachRef; Bev_Result])).
Proof. reflexivity. Qed.

Example Exec_missing_definition_file :
  demo_Exec [Some 5%nat] 1 =
  (Exec_returned nat []
     (Some (errors_Wrapf (ext_error "no such file or directory")
              "failed to open /run/buildkit/mount7/build.llb")),
   (6%nat,
    [Bev_RefMount true; Bev_lmMount true;
     Bev_RootPath "/run/buildkit/mount7" "build.llb";
     Bev_Open "/run/buildkit/mount7/build.llb" false;
     Bev_lmUnmount])).
Proof. reflexivity. Qed.

Example Exec_rejects_foreign_result :
  demo_Exec [Some 0%nat] 0 =
  (Exec_returned nat []
     (Some (errors_New "invalid reference for build *solver.fakeResult")),
   (0%nat, [])).
Proof. reflexivity. Qed.

Example Exec_index_past_inputs :
  demo_Exec [] 0 =
  (Exec_returned nat [] (Some (errors_New "invalid index 0")), (0%nat, [])).
Proof. reflexivity. Qed.

(** ** The further theorems at concrete inputs *)

Lemma withBoundProc_idempotent_witness :
  exists s1 : Spec,
    runWithBoundProc hasPrefix_clean nat demo_spec demo_world =
      Returned None s1 demo_world /\
    runWithBoundProc hasPrefix_clean nat s1 demo_world = Returned None s1 demo_world /\
    filter (fun m => hasPrefix_clean (Mount_Destination m) "/proc") (Spec_Mounts s1) =
      [procMount].
Proof.
  exact (withBoundProc_idempotent hasPrefix_clean nat demo_spec _ demo_world
           eq_refl eq_refl).
Defined.

Lemma generateMountOpts_appends_three_witness :
  map Mount_Destination
    (Spec_Mounts
       (fst (ApplyMountOpts demo_RemovedMount
               (generateMountOpts "/run/resolv.conf" "/run/hosts") demo_spec))) =
  (map Mount_Destination (Spec_Mounts (fst (demo_RemovedMount "/run" demo_spec)))
   ++ ["/etc/resolv.conf"; "/etc/hosts"; "/sys/fs/cgroup"])%list.
Proof.
  rewrite (generateMountOpts_appends_three demo_RemovedMount "/run/resolv.conf"
             "/run/hosts" demo_spec (fst (demo_RemovedMount "/run" demo_spec))
             None eq_refl).
  reflexivity.
Defined.

Lemma withROBind_then_withBoundProc_witness :
  exists s1 : Spec,
    runWithBoundProc hasPrefix_clean nat demo_spec demo_world =
      Returned None s1 demo_world /\
    runWithBoundProc hasPrefix_clean nat
      (fst (runWithROBind "/run/resolv.conf" "/etc/resolv.conf" demo_spec)) demo_world =
      Returned None (fst (runWithROBind "/run/resolv.conf" "/etc/resolv.conf" s1))
        demo_world.
Proof.
  destruct (withROBind_then_withBoundProc hasPrefix_clean nat "/run/resolv.conf"
              "/etc/resolv.conf" demo_spec _ demo_world eq_refl)
    as (s1 & H1 & _ & H3 & _).
  exists s1. split; [exact H1|]. apply H3. reflexivity.
Defined.

Lemma specMapping_round_trip_witness :
  map idMapOf
    (specMapping [{| IDMap_ID := 0; IDMap_ParentID := 100000; IDMap_Count := 65536 |}]) =
  [{| IDMap_ID := 0; IDMap_ParentID := 100000; IDMap_Count := 65536 |}].
Proof.
  refine (proj2 (specMapping_round_trip
                   [{| IDMap_ID := 0; IDMap_ParentID := 100000;
                       IDMap_Count := 65536 |}] _)).
  constructor; [|constructor]. unfold fits_uint32. simpl. lia.
Defined.


Lemma insecure_mode_ignores_profiles_witness :
  generateSecurityOpts host_with_everything SecurityMode_INSECURE "docker-default" true =
  ([ External security_WithInsecureSpec;
     External oci_WithWriteableCgroupfs;
     External oci_WithWriteableSysfs;
     withSelinuxLabels true ["disable"] ], None).
Proof.
  refine (proj1 (insecure_mode_ignores_profiles host_with_everything
                   "docker-default" true _)).
  right. reflexivity.
Defined.

Lemma sandbox_list_shape_witness :
  last (fst (generateSecurityOpts host_with_everything SecurityMode_SANDBOX
               "docker-default" true)) withBoundProc =
  withSelinuxLabels true [].
Proof.
  exact (proj1 (sandbox_list_shape host_with_everything "docker-default" true
                  _ eq_refl)).
Defined.

Lemma sub_ends_with_first_unraced_attempt_witness :
  exists evs : list Syscall,
    sub nat demo_RootPath demo_OpenFile settling_Readlink demo_Close demo_Mount
        demo_mount "a/b" (0%nat, []) =
      ((with_Source demo_mount "/run/buildkit/mount1",
        Some (lm_Unmount [with_Source demo_mount "/proc/self/fd/9"]), None),
       (3%nat,
        ([] ++ evs
         ++ [Sys_RootPath "/tmp/root" "a/b";
             Sys_OpenFile "/tmp/root/a/b" (Z.lor unix_O_PATH unix_O_CLOEXEC);
             Sys_Readlink "/proc/self/fd/9";
             Sys_Mount [with_Source demo_mount "/proc/self/fd/9"];
             Sys_Close 9])%list)) /\
    count isOpenFile evs = 2%nat /\ count isReadlink evs = 2%nat /\
    count isClose evs = 2%nat /\ count isMount evs = 0%nat.
Proof.
  apply (sub_ends_with_first_unraced_attempt nat demo_RootPath demo_OpenFile
           settling_Readlink demo_Close demo_Mount 2 demo_mount "a/b"
           0%nat 2%nat 3%nat).
  - lia.
  - exists 1%nat. split.
    + exists "/tmp/root/a/b", 0%nat, 7%nat, 0%nat, "/etc", 0%nat.
      repeat split. discriminate.
    + exists 2%nat. split; [|reflexivity].
      exists "/tmp/root/a/b", 1%nat, 8%nat, 1%nat, "/etc", 1%nat.
      repeat split. discriminate.
  - apply (Mounted nat demo_RootPath demo_OpenFile settling_Readlink demo_Close
             demo_Mount "/tmp/root" demo_mount "a/b" 2%nat "/tmp/root/a/b"
             2%nat 2%nat 2%nat 2%nat 9%nat "/run/buildkit/mount1");
      reflexivity.
Defined.

Lemma rlimits_all_nil_clears_limits_witness :
  generateRlimitOpts ToUpper_ascii [None; None] = ([withRlimits []], None) /\
  demo_apply (fst (generateRlimitOpts ToUpper_ascii [None; None])) demo_spec demo_world =
    Returned None (with_Process demo_spec (with_Rlimits demo_process [])) demo_world /\
  demo_apply (fst (generateRlimitOpts ToUpper_ascii [])) demo_spec demo_world =
    Returned None demo_spec demo_world.
Proof.
  apply (rlimits_all_nil_clears_limits hasPrefix_clean demo_runExternal
           demo_GetDefaultProfile demo_InitLabels nat demo_Refresh
           demo_InjectDevices ToUpper_ascii [None; None] demo_spec demo_process
           demo_world).
  - discriminate.
  - repeat constructor.
  - reflexivity.
Defined.

Lemma rlimit_negative_wraps_witness :
  POSIXRlimit_Hard (rlimitOf ToUpper_ascii unlimited_ulimit) =
    (Ulimit_Hard unlimited_ulimit + 2 ^ 64)%Z.
Proof.
  refine (proj1 (rlimit_negative_wraps ToUpper_ascii unlimited_ulimit _ _));
    simpl; lia.
Defined.

Definition demo_sandboxed_spec : Spec :=
  match demo_run withDefaultProfile demo_spec demo_world with
  | Returned _ s _ => s
  | Panicked _ => demo_spec
  end.

Lemma security_mutators_frame_witness :
  demo_world = demo_world /\
  Spec_Mounts demo_sandboxed_spec = Spec_Mounts demo_spec /\
  Spec_Hooks demo_sandboxed_spec = Spec_Hooks demo_spec.
Proof.
  destruct (security_mutators_frame hasPrefix_clean demo_runExternal
              demo_GetDefaultProfile demo_InitLabels nat demo_Refresh
              demo_InjectDevices withDefaultProfile demo_spec demo_world
              (or_introl eq_refl)) as (_ & _ & _ & Hframe).
  destruct (Hframe demo_sandboxed_spec demo_world None eq_refl)
    as (H1 & H2 & H3 & _).
  repeat split; assumption.
Defined.
